(** * The write-points work object of the ingestion server

    A shallow embedding of [WritePointsWork] (package [transport]): the
    pooled per-request object, its frame parser [decodePoints], the two
    dispatch entry points [WritePoints] and [WriteStreamPoints], and the
    pool operations [GetWritePointsWork], [PutWritePointsWork] and [reset].

    Go slices are modelled with their length and capacity, run-time panics
    (index or slice bounds out of range, nil dereference, a panic inside
    the row decoder or the storage engine) are an explicit outcome, and
    every call a method makes outside the package (logger, storage engine,
    stream engine, statistics counter) is recorded in a trace. *)

From stdpp Require Import gmap.
From Stdlib Require Import String List NArith ZArith Lia Bool.
From Stdlib Require Import Strings.Byte.
Import ListNotations.

Set Implicit Arguments.
Local Open Scope string_scope.
Local Open Scope nat_scope.

(** ** Go slices *)

Module GoSlice.

(** A slice is nil, or a window on a backing array: [elems] are the
  [len] visible elements and [spare] the elements of the backing array
  between [len] and [cap]. *)
Inductive slice (A : Type) : Type :=
| Nil
| Slice (elems spare : list A).
Arguments Nil {A}.

Section Ops.
Context {A : Type}.

Definition elems (s : slice A) : list A :=
  match s with Nil => [] | Slice e _ => e end.

Definition spare (s : slice A) : list A :=
  match s with Nil => [] | Slice _ sp => sp end.

Definition len (s : slice A) : nat := length (elems s).

Definition cap (s : slice A) : nat := length (elems s) + length (spare s).

Definition is_nil (s : slice A) : bool :=
  match s with Nil => true | Slice _ _ => false end.

(** [s[i]]: [None] is the index-out-of-range panic. *)
Definition index (s : slice A) (i : nat) : option A := nth_error (elems s) i.

(** [s[a:]]: the low bound is checked against [len]. *)
Definition from (s : slice A) (a : nat) : option (slice A) :=
  if a <=? len s then
    match s with
    | Nil => Some Nil
    | Slice e sp => Some (Slice (skipn a e) sp)
    end
  else None.

(** [s[:b]]: the high bound is checked against [cap], so a slice can
    be extended into its spare capacity. *)
Definition upto (s : slice A) (b : nat) : option (slice A) :=
  if b <=? cap s then
    match s with
    | Nil => Some Nil
    | Slice e sp => Some (Slice (firstn b (e ++ sp)) (skipn b (e ++ sp)))
    end
  else None.

(** [s[:0]], which never panics. *)
Definition truncate (s : slice A) : slice A :=
  match s with
  | Nil => Nil
  | Slice e sp => Slice [] (e ++ sp)
  end.

(** Element-wise assignment [s[i] = x_i] for every visible [i]: the
    window is unchanged, a nil slice stays nil. *)
Definition assign (s : slice A) (new : list A) : slice A :=
  match s with
  | Nil => Nil
  | Slice _ sp => Slice new sp
  end.

End Ops.

End GoSlice.
Import GoSlice.

(** ** Errors *)

(** Modelled from the spec: package [errno] is not among the sources. Its
    [NewError] wraps what it is given in an error of a designated kind, here
    always the "unmarshal points" kind [ErrUnmarshalPoints]; the result is
    an error value, never nil. *)
Inductive Errno : Type := ErrUnmarshalPoints.

(** Error values: [errors.New msg], and [errno.NewError code arg], whose
    argument here is always the wrapped error (possibly nil). *)
Local Unset Elimination Schemes.
Inductive error : Type :=
| errors_New (msg : string)
| errno_NewError (code : Errno) (arg : option error).
Local Set Elimination Schemes.

(** ** Outcomes and the trace monad *)

Inductive Outcome (A : Type) : Type :=
| Done (a : A)
| Panic (reason : string).
Arguments Panic {A}.

(** [x != nil] for a pointer, interface or error value. *)
Definition notnil {A} (o : option A) : bool :=
  match o with Some _ => true | None => false end.

Definition returned {A} (o : Outcome A) : option A :=
  match o with Done a => Some a | Panic _ => None end.

(** A call that returned, and returned a nil error. *)
Definition returnedNil {A} (o : Outcome (option A)) : bool :=
  match o with Done None => true | _ => false end.

(** ** The work object and its collaborators *)

Section Transport.

(** Types declared in other packages ([influx], [netstorage], [storage],
    [stream]); only the fields this file touches are spelled out. *)
Variables (RowBody StreamIdT Tag Field IndexT OptionBody : Type).
Variables (Storage Engine : Type).

(** [influx.Row]: the two stream fields set by [decodePoints], and the
    rest of the row. *)
Record Row : Type := mkRow {
  Body : RowBody;
  StreamOnly : bool;
  StreamId : StreamIdT
}.

(** [netstorage.StreamVar]. *)
Record StreamVar : Type := mkStreamVar {
  Only : bool;
  Id : StreamIdT
}.

(** [influx.IndexOption]: each entry owns a nested [IndexList]. *)
Record IndexOption : Type := mkIndexOption {
  IndexList : slice IndexT;
  OptionRest : OptionBody
}.

Record WritePointsWork : Type := mkWork {
  storage : option Storage;                  (* pointer to storage.Storage, nil = None *)
  stream : option Engine;                    (* stream.Engine, nil = None *)
  reqBuf : slice byte;
  streamVars : slice (option StreamVar);     (* []*netstorage.StreamVar *)
  rows : slice Row;
  tagpools : slice Tag;
  fieldpools : slice Field;
  indexKeypools : slice byte;
  indexOptionpools : slice IndexOption;
  lastResetTime : N                          (* uint64 *)
}.

Definition GetRows (ww : WritePointsWork) : slice Row := rows ww.

Definition SetRows (ww : WritePointsWork) (rs : slice Row) : WritePointsWork :=
  mkWork (storage ww) (stream ww) (reqBuf ww) (streamVars ww) rs
         (tagpools ww) (fieldpools ww) (indexKeypools ww)
         (indexOptionpools ww) (lastResetTime ww).

(** Calls that leave the package, in the order they happen. The zap
    fields of a log call are not kept. *)
Inductive Event : Type :=
| LogError (msg : string)                    (* logger.Error("...", fields) *)
| LogErrorOf (e : error)                     (* logger.Error(err.Error()) *)
| StorageWriteRows (s : option Storage) (db rp : string) (ptId shard : N)
                   (rs : slice Row) (binaryRows : list byte)
| StorageWriteRowsToSlave (s : option Storage) (rs : slice Row)
                          (db rp : string) (ptId shard : N)
| StreamWriteRows (e : Engine) (db rp : string) (ptId shard : N)
                  (streamIdDstShardIdMap : gmap N N)
| AddWriteUnmarshalNs (delta : Z).

(** How often the trace enters each collaborator. *)
Definition isStorageWriteRows (e : Event) : bool :=
  match e with StorageWriteRows _ _ _ _ _ _ _ => true | _ => false end.

Definition isStorageWriteRowsToSlave (e : Event) : bool :=
  match e with StorageWriteRowsToSlave _ _ _ _ _ _ => true | _ => false end.

Definition isStreamWriteRows (e : Event) : bool :=
  match e with StreamWriteRows _ _ _ _ _ _ => true | _ => false end.

Definition isAddWriteUnmarshalNs (e : Event) : bool :=
  match e with AddWriteUnmarshalNs _ => true | _ => false end.

Definition isDownstream (e : Event) : bool :=
  isStorageWriteRows e || isStorageWriteRowsToSlave e || isStreamWriteRows e.

Definition isLog (e : Event) : bool :=
  match e with LogError _ | LogErrorOf _ => true | _ => false end.

Definition calls (which : Event -> bool) (tr : list Event) : nat :=
  length (filter which tr).

Record World : Type := mkWorld {
  work : WritePointsWork;
  trace : list Event
}.

(** A method of the work object: it may change the object, extend the
    trace, and either returns or panics. *)
Definition M (A : Type) : Type := World -> Outcome A * World.

Definition ret {A} (a : A) : M A := fun w => (Done a, w).

Definition bind {A B} (m : M A) (k : A -> M B) : M B :=
  fun w =>
    match m w with
    | (Done a, w') => k a w'
    | (Panic r, w') => (Panic r, w')
    end.

Definition panic {A} (reason : string) : M A := fun w => (Panic reason, w).

Definition emit (e : Event) : M unit :=
  fun w => (Done tt, mkWorld (work w) (trace w ++ [e])).

Definition getWork : M WritePointsWork := fun w => (Done (work w), w).

Definition setWork (ww : WritePointsWork) : M unit :=
  fun w => (Done tt, mkWorld ww (trace w)).

(** A checked slice operation: [None] is the run-time panic. *)
Definition checked {A} (reason : string) (o : option A) : M A :=
  match o with
  | Some a => ret a
  | None => panic reason
  end.

(** A call into another package: what it returns, or its panic, which
    goes on through the caller. *)
Definition call {A} (o : Outcome A) : M A :=
  match o with
  | Done a => ret a
  | Panic reason => panic reason
  end.

Notation "x <- m ;; k" := (bind m (fun x => k))
  (at level 100, m at next level, right associativity).
Notation "m ;; k" := (bind m (fun _ => k))
  (at level 100, right associativity).

Definition index_out_of_range := "index out of range".
Definition slice_bounds_out_of_range := "slice bounds out of range".
Definition nil_pointer_dereference := "invalid memory address or nil pointer dereference".

(** *** Collaborators

    What the file imports and calls. Each is taken as it is called: the
    functions of package [encoding] work on the visible bytes of the
    slice they are given, the row decoder gets the payload and the five
    truncated pools and hands back the pools it filled. The row decoder
    and the two methods of the storage engine either return or panic (the
    one on a payload it cannot read, the other on a batch it cannot
    take). Of the stream engine's [WriteRows], which returns nothing, only
    the call is recorded. *)

Class Env : Type := mkEnv {
  PackageTypeFast : byte;                      (* netstorage.PackageTypeFast *)

  UnmarshalUint32 : list byte -> N;            (* encoding.UnmarshalUint32 *)
  UnmarshalUint64 : list byte -> N;            (* encoding.UnmarshalUint64 *)

  (* encoding.UnmarshalVarUint64s(dst, src) for a dst of the given length:
     the contents of dst afterwards, the returned tail, and the error *)
  UnmarshalVarUint64s : nat -> list byte -> list N * list byte * option error;

  (* influx.FastUnmarshalMultiRows: the rows, the pools and the error it
     returns, or its panic *)
  FastUnmarshalMultiRows :
    list byte -> slice Row -> slice Tag -> slice Field -> slice IndexOption -> slice byte ->
    Outcome (slice Row * slice Tag * slice Field * slice IndexOption * slice byte
             * option error);

  (* the methods WriteRows and WriteRowsToSlave of the storage engine: the
     error they return for the call they get, or their panic *)
  storage_WriteRows :
    option Storage -> string -> string -> N -> N -> slice Row -> list byte ->
    Outcome (option error);
  storage_WriteRowsToSlave :
    option Storage -> slice Row -> string -> string -> N -> N -> Outcome (option error);

  IsReplication : bool;                        (* config.IsReplication() *)

  sinceNs : Z                                  (* time.Since(start).Nanoseconds() *)
}.

Context {env : Env}.

(** [util.Bytes2str]: the same bytes seen as a string. *)
Definition Bytes2str (b : slice byte) : string := string_of_list_byte (elems b).

(** *** decodePoints *)

(** The named results of [decodePoints]. The id list and the payload
    are only read by the callers, so they are kept as their elements. *)
Record Decoded : Type := mkDecoded {
  db : string;
  rp : string;
  ptId : N;
  shard : N;
  streamShardIdList : list N;
  binaryRows : list byte;
  err : option error
}.

(** [ww.indexOptionpools[i].IndexList = ww.indexOptionpools[i].IndexList[:0]]
    for every visible entry. *)
Definition truncateIndexLists (p : slice IndexOption) : slice IndexOption :=
  match p with
  | Nil => Nil
  | Slice e sp =>
      Slice (map (fun o => mkIndexOption (truncate (IndexList o)) (OptionRest o)) e) sp
  end.

(** The loop that copies [streamVars[i].Only] and [.Id] into [rows[i]],
    row by row: the rows as the loop leaves them and, when it does not get
    to the end, the panic that stops it (a nil [streamVars[i]], or none at
    [i]). The rows before the one it stops at are written, the others are
    as they were. *)
Fixpoint setStreamVars (rs : list Row) (vars : list (option StreamVar))
  : list Row * option string :=
  match rs with
  | [] => ([], None)
  | r :: rs' =>
      match vars with
      | Some v :: vars' =>
          let '(out, stop) := setStreamVars rs' vars' in
          (mkRow (Body r) (Only v) (Id v) :: out, stop)
      | None :: _ => (rs, Some nil_pointer_dereference)
      | [] => (rs, Some index_out_of_range)
      end
  end.

Definition mismatch_msg : string :=
  "unmarshal rows failed, the num of the rows is not equal to the stream vars".

(** The second half of [decodePoints], from [binaryRows = tail] on: the
    pools are truncated, the row decoder fills them, then the stream
    variables are bound to the rows. [decodePoints] ends in it. *)
Definition decodeRows (db rp : string) (ptId shard : N) (streamShardIdList : list N)
    (tail : list byte) : M Decoded :=
  ww <- getWork ;;
  let binaryRows := tail in

  let ww := mkWork (storage ww) (stream ww) (reqBuf ww) (streamVars ww)
                   (truncate (rows ww))
                   (truncate (tagpools ww)) (truncate (fieldpools ww))
                   (truncate (indexKeypools ww))
                   (truncate (truncateIndexLists (indexOptionpools ww)))
                   (lastResetTime ww) in
  setWork ww ;;
  out <- call (FastUnmarshalMultiRows tail (rows ww) (tagpools ww) (fieldpools ww)
                                      (indexOptionpools ww) (indexKeypools ww)) ;;
  let '(rows', tagpools', fieldpools', indexOptionpools', indexKeypools', err) := out in
  let ww := mkWork (storage ww) (stream ww) (reqBuf ww) (streamVars ww) rows'
                   tagpools' fieldpools' indexKeypools' indexOptionpools'
                   (lastResetTime ww) in
  setWork ww ;;
  match err with
  | Some e =>
      emit (LogError "unmarshal rows failed") ;;
      ret (mkDecoded db rp ptId shard streamShardIdList binaryRows (Some e))
  | None =>

  if 0 <? length streamShardIdList then
    if negb (len (rows ww) =? len (streamVars ww)) then
      emit (LogError mismatch_msg) ;;
      ret (mkDecoded db rp ptId shard streamShardIdList binaryRows
                     (Some (errors_New mismatch_msg)))
    else
      let '(annotated, stop) := setStreamVars (elems (rows ww)) (elems (streamVars ww)) in
      setWork (SetRows ww (assign (rows ww) annotated)) ;;
      match stop with
      | Some reason => panic reason
      | None =>
          emit (AddWriteUnmarshalNs sinceNs) ;;
          ret (mkDecoded db rp ptId shard streamShardIdList binaryRows None)
      end
  else
    emit (AddWriteUnmarshalNs sinceNs) ;;
    ret (mkDecoded db rp ptId shard streamShardIdList binaryRows None)
  end.

Definition decodePoints : M Decoded :=
  ww <- getWork ;;
  let tail := reqBuf ww in
  if len tail <? 2 then
    let e := errors_New "invalid points buffer" in
    emit (LogErrorOf e) ;;
    ret (mkDecoded "" "" 0 0 [] [] (Some e))
  else
  ty <- checked index_out_of_range (index tail 0) ;;
  if negb (Byte.eqb ty PackageTypeFast) then
    let e := errors_New "not a fast marshal points package" in
    emit (LogErrorOf e) ;;
    ret (mkDecoded "" "" 0 0 [] [] (Some e))
  else
  tail <- checked slice_bounds_out_of_range (from tail 1) ;;

  b <- checked index_out_of_range (index tail 0) ;;
  let l := Byte.to_nat b in
  if len tail <? l then
    let e := errors_New "no data for db name" in
    emit (LogErrorOf e) ;;
    ret (mkDecoded "" "" 0 0 [] [] (Some e))
  else
  tail <- checked slice_bounds_out_of_range (from tail 1) ;;
  name <- checked slice_bounds_out_of_range (upto tail l) ;;
  let db := Bytes2str name in
  tail <- checked slice_bounds_out_of_range (from tail l) ;;

  b <- checked index_out_of_range (index tail 0) ;;
  let l := Byte.to_nat b in
  if len tail <? l then
    let e := errors_New "no data for rp name" in
    emit (LogErrorOf e) ;;
    ret (mkDecoded db "" 0 0 [] [] (Some e))
  else
  tail <- checked slice_bounds_out_of_range (from tail 1) ;;
  name <- checked slice_bounds_out_of_range (upto tail l) ;;
  let rp := Bytes2str name in
  tail <- checked slice_bounds_out_of_range (from tail l) ;;

  if len tail <? 16 then
    let e := errors_New "no data for points data" in
    emit (LogErrorOf e) ;;
    ret (mkDecoded db rp 0 0 [] [] (Some e))
  else
  let ptId := UnmarshalUint32 (elems tail) in
  tail <- checked slice_bounds_out_of_range (from tail 4) ;;
  let shard := UnmarshalUint64 (elems tail) in
  tail <- checked slice_bounds_out_of_range (from tail 8) ;;
  let sdLen := UnmarshalUint32 (elems tail) in
  tail <- checked slice_bounds_out_of_range (from tail 4) ;;

  let '(streamShardIdList, tail, err) :=
    UnmarshalVarUint64s (N.to_nat sdLen) (elems tail) in
  match err with
  | Some e =>
      emit (LogErrorOf e) ;;
      ret (mkDecoded db rp ptId shard streamShardIdList [] (Some e))
  | None => decodeRows db rp ptId shard streamShardIdList tail
  end.

(** The frame parser as the layout describes it, on the bytes of the
    request: the tag, two length-prefixed names, the 16-byte block, the
    counted varints, and the rest as payload. [None] is any malformed
    frame. *)
Definition parseFrame (buf : list byte) : option Decoded :=
  match buf with
  | ty :: l1 :: buf =>
      if Byte.eqb ty PackageTypeFast && (Byte.to_nat l1 <=? length buf) then
        let db := string_of_list_byte (firstn (Byte.to_nat l1) buf) in
        match skipn (Byte.to_nat l1) buf with
        | l2 :: buf =>
            if (Byte.to_nat l2 <=? length buf) && (16 <=? length buf - Byte.to_nat l2) then
              let rp := string_of_list_byte (firstn (Byte.to_nat l2) buf) in
              let buf := skipn (Byte.to_nat l2) buf in
              let ptId := UnmarshalUint32 buf in
              let shard := UnmarshalUint64 (skipn 4 buf) in
              let n := UnmarshalUint32 (skipn 12 buf) in
              match UnmarshalVarUint64s (N.to_nat n) (skipn 16 buf) with
              | (ids, payload, None) => Some (mkDecoded db rp ptId shard ids payload None)
              | _ => None
              end
            else None
        | [] => None
        end
      else None
  | _ => None
  end.

(** *** WritePoints *)

Definition WritePoints : M (option error) :=
  r <- decodePoints ;;
  match err r with
  | Some e =>
      let e := errno_NewError ErrUnmarshalPoints (Some e) in
      emit (LogError "unmarshal rows failed") ;;
      ret (Some e)
  | None =>
  ww <- getWork ;;
  emit (StorageWriteRows (storage ww) (db r) (rp r) (ptId r) (shard r) (rows ww) (binaryRows r)) ;;
  err <- call (storage_WriteRows (storage ww) (db r) (rp r) (ptId r) (shard r)
                                 (rows ww) (binaryRows r)) ;;
  (if notnil err then emit (LogError "write rows failed") else ret tt) ;;

  if negb (notnil err) && IsReplication then
    emit (StorageWriteRowsToSlave (storage ww) (rows ww) (db r) (rp r) (ptId r) (shard r)) ;;
    call (storage_WriteRowsToSlave (storage ww) (rows ww) (db r) (rp r) (ptId r) (shard r))
  else
    ret err
  end.

(** *** WriteStreamPoints *)

(** [for i := 0; i < len(l); i += 2 { m[l[i]] = l[i+1] }] on a list of
    even length. *)
Fixpoint fillStreamIdDstShardIdMap (l : list N) (m : gmap N N) : gmap N N :=
  match l with
  | src :: dst :: l' => fillStreamIdDstShardIdMap l' (<[src := dst]> m)
  | _ => m
  end.

Definition WriteStreamPoints : M (option error * bool) :=
  let inUse := false in
  r <- decodePoints ;;
  match err r with
  | Some e =>
      let e := errno_NewError ErrUnmarshalPoints (Some e) in
      emit (LogError "unmarshal rows failed") ;;
      ret (Some e, inUse)
  | None =>
  ww <- getWork ;;
  emit (StorageWriteRows (storage ww) (db r) (rp r) (ptId r) (shard r) (rows ww) (binaryRows r)) ;;
  err <- call (storage_WriteRows (storage ww) (db r) (rp r) (ptId r) (shard r)
                                 (rows ww) (binaryRows r)) ;;
  (if notnil err then emit (LogError "write rows failed") else ret tt) ;;
  let ids := streamShardIdList r in
  if negb (notnil (stream ww)) || (length ids =? 0) then
    ret (err, inUse)
  else

  if negb (length ids mod 2 =? 0) then
    ret (Some (errno_NewError ErrUnmarshalPoints err), inUse)
  else
  let streamIdDstShardIdMap := fillStreamIdDstShardIdMap ids ∅ in
  if negb (notnil err) && (0 <? length ids) then
    eng <- checked nil_pointer_dereference (stream ww) ;;
    emit (StreamWriteRows eng (db r) (rp r) (ptId r) (shard r) streamIdDstShardIdMap) ;;
    ret (err, true)
  else
    ret (err, inUse)
  end.

(** *** reset and the pool *)

(** Subtraction of two [uint64] values. *)
Definition uint64_sub (a b : N) : N := ((a + 2 ^ 64 - b) mod 2 ^ 64)%N.

(** [reset], with the two readings of [fasttime.UnixTimestamp()]: [now]
    in the condition, [now'] in the assignment. *)
Definition reset (now now' : N) (ww : WritePointsWork) : WritePointsWork :=
  let shrink :=
    ((cap (reqBuf ww) <? len (reqBuf ww) * 4) || (cap (rows ww) <? len (rows ww) * 4))
    && (10 <? uint64_sub now (lastResetTime ww))%N in
  let reqBuf' := if shrink then Nil else reqBuf ww in
  let rows' := if shrink then Nil else rows ww in
  let lastResetTime' := if shrink then now' else lastResetTime ww in
  mkWork None None
         (truncate reqBuf')
         (truncate (streamVars ww))
         (truncate rows')
         (truncate (tagpools ww))
         (truncate (fieldpools ww))
         (truncate (indexKeypools ww))
         (truncate (indexOptionpools ww))
         lastResetTime'.

(** The two process-wide pools: [writePointsWorkPool] (a [sync.Pool]), and
    the points buffer pool. Modelled from the spec: package [bufferpool] is
    not among the sources; [PutPoints] returns the request buffer to a
    raw-buffer pool, which is all that is recorded here. *)
Record Pools : Type := mkPools {
  writePointsWorkPool : list WritePointsWork;
  pointsBuffers : list (slice byte)
}.

(** [sync.Pool.Get] of Go's standard library, as its documentation words
    it: Get selects an arbitrary item from the pool, removes it from the
    pool and returns it, and it may return nil. [pick] is that choice. The
    pool holds the work objects by value: that two pooled pointers may be
    one and the same object is not recorded. *)
Definition pool_Get {X} (pick : option nat) (pool : list X) : option X * list X :=
  match pick with
  | None => (None, pool)
  | Some i =>
      match nth_error pool i with
      | Some x => (Some x, (firstn i pool ++ skipn (S i) pool)%list)
      | None => (None, pool)
      end
  end.

Definition GetWritePointsWork (pick : option nat) (p : Pools) : WritePointsWork * Pools :=
  match pool_Get pick (writePointsWorkPool p) with
  | (None, _) => (mkWork None None Nil Nil Nil Nil Nil Nil Nil 0%N, p)
  | (Some v, rest) => (v, mkPools rest (pointsBuffers p))
  end.

Definition PutWritePointsWork (now now' : N) (ww : WritePointsWork) (p : Pools) : Pools :=
  let buffers := reqBuf ww :: pointsBuffers p in
  let ww := reset now now' ww in
  mkPools (ww :: writePointsWorkPool p) buffers.

(** A work object as a checkout should find it: every scratch pool and the
    stream variables empty, no storage or stream engine borrowed. *)
Definition clean (ww : WritePointsWork) : Prop :=
  len (rows ww) = 0 /\ len (tagpools ww) = 0 /\ len (fieldpools ww) = 0
  /\ len (indexKeypools ww) = 0 /\ len (indexOptionpools ww) = 0
  /\ len (streamVars ww) = 0
  /\ storage ww = None /\ stream ww = None.

End Transport.

Arguments Env : clear implicits.
Arguments World : clear implicits.
Arguments WritePointsWork : clear implicits.
Arguments Pools : clear implicits.
Arguments Event : clear implicits.
Arguments isStorageWriteRows {RowBody StreamIdT Storage Engine} e.
Arguments isStorageWriteRowsToSlave {RowBody StreamIdT Storage Engine} e.
Arguments isStreamWriteRows {RowBody StreamIdT Storage Engine} e.
Arguments isAddWriteUnmarshalNs {RowBody StreamIdT Storage Engine} e.
Arguments isLog {RowBody StreamIdT Storage Engine} e.
Arguments isDownstream {RowBody StreamIdT Storage Engine} e.
Arguments PackageTypeFast {RowBody StreamIdT Tag Field IndexT OptionBody Storage Env}.
Arguments IsReplication {RowBody StreamIdT Tag Field IndexT OptionBody Storage Env}.
Arguments sinceNs {RowBody StreamIdT Tag Field IndexT OptionBody Storage Env}.
Arguments LogError {RowBody StreamIdT Storage Engine} msg.
Arguments LogErrorOf {RowBody StreamIdT Storage Engine} e.
Arguments AddWriteUnmarshalNs {RowBody StreamIdT Storage Engine} delta.
Arguments StorageWriteRows {RowBody StreamIdT Storage Engine}.
Arguments StorageWriteRowsToSlave {RowBody StreamIdT Storage Engine}.
Arguments StreamWriteRows {RowBody StreamIdT Storage Engine}.

(** ** The frame layout

    The sender's side of the frame that [decodePoints] reads: the tag, the
    two length-prefixed names, the 16-byte fixed block and the list of
    varints, followed by the row payload. *)

(** The encoders that are the counterparts of the [encoding] functions in
    [Env]. *)
Class Marshal : Type := mkMarshal {
  MarshalUint32 : N -> list byte;
  MarshalUint64 : N -> list byte;
  MarshalVarUint64s : list N -> list byte
}.

(** The byte whose value is [n mod 256]. *)
Definition byte_of_N (n : N) : byte :=
  match Byte.of_N (n mod 256) with
  | Some b => b
  | None => x00
  end.

Definition encodeHeader {m : Marshal} (tag : byte) (db rp : string) (ptId shard : N)
    (ids : list N) : list byte :=
  (tag
   :: byte_of_N (N.of_nat (String.length db)) :: list_byte_of_string db
   ++ byte_of_N (N.of_nat (String.length rp)) :: list_byte_of_string rp
   ++ MarshalUint32 ptId
   ++ MarshalUint64 shard
   ++ MarshalUint32 (N.of_nat (length ids))
   ++ MarshalVarUint64s ids)%list.

(** The fields that fit the layout: names of at most 255 bytes, a 32-bit
    partition id and count, 64-bit shard and stream-shard ids. *)
Definition validHeader (db rp : string) (ptId shard : N) (ids : list N) : Prop :=
  String.length db <= 255 /\ String.length rp <= 255 /\
  (ptId < 2 ^ 32)%N /\ (shard < 2 ^ 64)%N /\
  (N.of_nat (length ids) < 2 ^ 32)%N /\ Forall (fun v => (v < 2 ^ 64)%N) ids.

(** What decoders and encoders owe each other. *)
Class EncodingLaws {R S T F I O St} (env : Env R S T F I O St) (m : Marshal) : Prop := {
  MarshalUint32_length : forall v, length (MarshalUint32 v) = 4;
  MarshalUint64_length : forall v, length (MarshalUint64 v) = 8;
  UnmarshalUint32_Marshal : forall v rest,
    (v < 2 ^ 32)%N -> UnmarshalUint32 (MarshalUint32 v ++ rest) = v;
  UnmarshalUint64_Marshal : forall v rest,
    (v < 2 ^ 64)%N -> UnmarshalUint64 (MarshalUint64 v ++ rest) = v;
  UnmarshalVarUint64s_Marshal : forall ids rest,
    Forall (fun v => (v < 2 ^ 64)%N) ids ->
    UnmarshalVarUint64s (length ids) (MarshalVarUint64s ids ++ rest) = (ids, rest, None)
}.

(** ** A reference encoding

    Big-endian fixed-width integers and base-128 varints, least significant
    group first, as package [encoding] writes and reads them. *)

Module Reference.

Fixpoint bigEndian (width : nat) (v : N) : list byte :=
  match width with
  | 0 => []
  | S w => byte_of_N (v / 256 ^ N.of_nat w) :: bigEndian w v
  end.

Definition ofBigEndian (width : nat) (src : list byte) : N :=
  fold_left (fun acc b => (acc * 256 + Byte.to_N b)%N) (firstn width src) 0%N.

(** One varint; at most [S fuel] bytes are written. *)
Fixpoint putUvarint (fuel : nat) (v : N) : list byte :=
  match fuel with
  | 0 => [byte_of_N v]
  | S f =>
      if (v <? 128)%N then [byte_of_N v]
      else byte_of_N (v mod 128 + 128) :: putUvarint f (v / 128)
  end.

(** One varint read from [src], at most [fuel] bytes long: the value so
    far is [acc], the next group goes to bit [shift]. *)
Fixpoint uvarint (fuel : nat) (src : list byte) (shift acc : N) : option (N * list byte) :=
  match fuel with
  | 0 => None
  | S f =>
      match src with
      | [] => None
      | b :: src' =>
          let c := Byte.to_N b in
          if (c <? 128)%N then Some (((acc + c * 2 ^ shift) mod 2 ^ 64)%N, src')
          else uvarint f src' (shift + 7)%N (acc + (c - 128) * 2 ^ shift)%N
      end
  end.

Definition marshalVarUint64s (ids : list N) : list byte :=
  flat_map (putUvarint 9) ids.

Fixpoint unmarshalVarUint64s (n : nat) (src : list byte) : list N * list byte * option error :=
  match n with
  | 0 => ([], src, None)
  | S n' =>
      match uvarint 10 src 0 0 with
      | None => (repeat 0%N n, [], Some (errors_New "cannot unmarshal varuint"))
      | Some (v, src') =>
          let '(vs, tail, e) := unmarshalVarUint64s n' src' in
          (v :: vs, tail, e)
      end
  end.

Definition marshal : Marshal :=
  mkMarshal (bigEndian 4) (bigEndian 8) marshalVarUint64s.

End Reference.


(** ** The statistics counter *)

(** [atomic.AddInt64] wraps around in two's complement. *)
Definition int64 (z : Z) : Z := ((z + 2 ^ 63) mod 2 ^ 64 - 2 ^ 63)%Z.

(** The value of [statistics.PerfStat.WriteUnmarshalNs] after the calls
    of a trace, from its value before them. *)
Definition WriteUnmarshalNs {R S St En} (before : Z) (tr : list (Event R S St En)) : Z :=
  fold_left (fun acc e =>
               match e with
               | AddWriteUnmarshalNs d => int64 (acc + d)
               | _ => acc
               end) tr before.

(** ** The shrink policy as the data model words it

    A buffer is dropped when its capacity has grown to at least four times
    its last-used length and at least ten seconds have passed since the
    last shrink; each buffer on its own. *)
Definition grownFourfold {A} (s : slice A) : bool := len s * 4 <=? cap s.

Definition wordedDrop {A} (s : slice A) (elapsed : N) : bool :=
  grownFourfold s && (10 <=? elapsed)%N.

(** ** A concrete environment

    A row decoder that reads a four-byte prefix without asking whether it
    is there (a payload of fewer than five bytes makes it panic) and then
    takes one row per byte; a storage engine that knows every shard but
    404 and panics on shard 500; a replica that is never reachable; and
    the reference encoding. *)

Module Demo.

Definition rowsOf (payload : list byte) : list (Row byte N) :=
  map (fun b => mkRow b false 0%N) payload.

(** The payload that holds the given rows. *)
Definition batch (rows : list byte) : list byte := x00 :: x00 :: x00 :: x00 :: rows.

Definition env : Env byte N unit unit unit unit unit :=
  {| PackageTypeFast := x01;
     UnmarshalUint32 := Reference.ofBigEndian 4;
     UnmarshalUint64 := Reference.ofBigEndian 8;
     UnmarshalVarUint64s := Reference.unmarshalVarUint64s;
     FastUnmarshalMultiRows := fun payload rows tags fields opts keys =>
       match payload with
       | _ :: _ :: _ :: _ :: xff :: _ =>
           Done (rows, tags, fields, opts, keys, Some (errors_New "malformed row"))
       | _ :: _ :: _ :: _ :: b :: bs =>
           Done (Slice (rowsOf (b :: bs)) [], tags, fields, opts, keys, None)
       | _ => Panic slice_bounds_out_of_range
       end;
     storage_WriteRows := fun _ _ _ _ shard _ _ =>
       if (shard =? 500)%N then Panic nil_pointer_dereference
       else if (shard =? 404)%N then Done (Some (errors_New "shard not found"))
       else Done None;
     storage_WriteRowsToSlave := fun _ _ _ _ _ _ =>
       Done (Some (errors_New "replica unavailable"));
     IsReplication := true;
     sinceNs := 1500 |}.

(** The same environment with replication switched off. *)
Definition envNoReplication : Env byte N unit unit unit unit unit :=
  {| PackageTypeFast := x01;
     UnmarshalUint32 := Reference.ofBigEndian 4;
     UnmarshalUint64 := Reference.ofBigEndian 8;
     UnmarshalVarUint64s := Reference.unmarshalVarUint64s;
     FastUnmarshalMultiRows := FastUnmarshalMultiRows (Env := env);
     storage_WriteRows := storage_WriteRows (Env := env);
     storage_WriteRowsToSlave := storage_WriteRowsToSlave (Env := env);
     IsReplication := false;
     sinceNs := 1500 |}.

(** A frame for database "db", retention policy "rp", partition 7 and
    shard 42. *)
Definition frame (ids : list N) (payload : list byte) : list byte :=
  (encodeHeader (m := Reference.marshal) x01 "db" "rp" 7 42 ids ++ payload)%list.

(** A checked-out work object holding a request, and the world it runs in. *)
Definition request (buf spare : list byte) (vars : list (option (StreamVar N)))
    (eng : option unit) : WritePointsWork byte N unit unit unit unit unit unit :=
  mkWork (Some tt) eng (Slice buf spare) (Slice vars []) Nil Nil Nil Nil Nil 0%N.

Definition world (ww : WritePointsWork byte N unit unit unit unit unit unit)
  : World byte N unit unit unit unit unit unit :=
  mkWorld ww [].

(** A work object whose two buffers have the given lengths and
    capacities. *)
Definition sized (reqLen reqCap rowLen rowCap : nat) (last : N)
  : WritePointsWork byte N unit unit unit unit unit unit :=
  mkWork (Some tt) None
         (Slice (repeat x00 reqLen) (repeat x00 (reqCap - reqLen)))
         Nil
         (Slice (repeat (mkRow x00 false 0%N) rowLen)
                (repeat (mkRow x00 false 0%N) (rowCap - rowLen)))
         Nil Nil Nil Nil last.

(** Requests: one row and no stream shards; the same with two stream
    variables supplied; a pair of stream shards with no stream variable; one
    stream shard (an odd list) with and without a stream engine; a pair of
    stream shards with a stream engine and one stream variable. *)
Definition var : StreamVar N := mkStreamVar true 5%N.

Definition plain := world (request (frame [] (batch [x61])) [] [] None).
Definition surplusVars := world (request (frame [] (batch [x61])) [] [Some var; Some var] None).
Definition missingVars := world (request (frame [5; 9]%N (batch [x61])) [] [] None).
Definition oddNoStream := world (request (frame [5]%N (batch [x61])) [] [Some var] None).
Definition oddStream := world (request (frame [5]%N (batch [x61])) [] [Some var] (Some tt)).
Definition paired := world (request (frame [5; 9]%N (batch [x61])) [] [Some var] (Some tt)).

(** One row that the row decoder rejects. *)
Definition badRow := world (request (frame [] (batch [xff])) [] [] None).

(** A well-formed header followed by a payload of one byte, on which the
    row decoder panics. *)
Definition shortPayload := world (request (frame [] [x61]) [] [] None).

(** A header that announces one stream-shard id and writes it as the two
    bytes 80 00, zero in a varint one byte longer than needed, followed by
    one row. *)
Definition paddedFrame : list byte :=
  (firstn 19 (frame [] []) ++ [x00; x00; x00; x01; x80; x00] ++ batch [x61])%list.

Definition padded := world (request paddedFrame [] [Some var] None).

(** One stream shard (an odd list), a stream engine attached, and a nil
    pointer where the stream variable of the row should be. *)
Definition oddNilVar := world (request (frame [5]%N (batch [x61])) [] [None] (Some tt)).

(** A work object that has never held a request. *)
Definition fresh : WritePointsWork byte N unit unit unit unit unit unit :=
  mkWork None None Nil Nil Nil Nil Nil Nil Nil 0%N.

Definition noPools : Pools byte N unit unit unit unit unit unit := mkPools [] [].

End Demo.

(** ** The server shell

    [Server] with [NewServer], [Open], [setIsStopping] and [MustClose]. The
    insert and select servers are declared elsewhere; what is used of them
    is their address and their [Open] and [Close] methods, which act on the
    listener they are called on: [Open] leaves it opened or not and returns
    an error or nil, [Close] returns nothing and, like any call, may panic
    (on a listener that was never opened, say). The [closed] channel is
    never sent on, so it is known by whether it has been closed: a receive
    from it is ready exactly when it is closed, and closing it again would
    panic. [Run] only starts goroutines and is not modelled. *)

Module Server.

Section Shell.

Variables (InsertServer SelectServer OpenError : Type).

Class Env : Type := mkEnv {
  NewInsertServer : string -> InsertServer;
  NewSelectServer : string -> SelectServer;
  insert_addr : InsertServer -> string;        (* s.insertServer.addr *)
  select_addr : SelectServer -> string;        (* s.selectServer.addr *)

  (* Open: the listener after the call, and the error returned *)
  insert_Open : InsertServer -> InsertServer * option OpenError;
  select_Open : SelectServer -> SelectServer * option OpenError;

  (* Close: the listener after the call, or the panic *)
  insert_Close : InsertServer -> Outcome InsertServer;
  select_Close : SelectServer -> Outcome SelectServer;

  Error : OpenError -> string                  (* err.Error(), what %s prints *)
}.

Context {env : Env}.

Record Server : Type := mkServer {
  closed : bool;                               (* has close(s.closed) happened *)
  selectServer : SelectServer;
  insertServer : InsertServer
}.

(** The calls on the two listeners, each with the listener as the call
    finds it, and the closing of the channel. *)
Inductive Event : Type :=
| InsertOpen (s : InsertServer)
| SelectOpen (s : SelectServer)
| SelectClose (s : SelectServer)
| InsertClose (s : InsertServer)
| CloseChan.

Definition isCloseChan (e : Event) : bool :=
  match e with CloseChan => true | _ => false end.

Definition isSelectClose (e : Event) : bool :=
  match e with SelectClose _ => true | _ => false end.

Definition isInsertClose (e : Event) : bool :=
  match e with InsertClose _ => true | _ => false end.

Definition isSelectOpen (e : Event) : bool :=
  match e with SelectOpen _ => true | _ => false end.

Definition isInsertOpen (e : Event) : bool :=
  match e with InsertOpen _ => true | _ => false end.

Definition NewServer (ingestAddr selectAddr : string) : Server :=
  let selectServer := NewSelectServer selectAddr in
  let insertServer := NewInsertServer ingestAddr in
  mkServer false selectServer insertServer.

(** [fmt.Errorf("cannot create a server with addr=%s: %s", addr, err)]. *)
Definition cannotCreate (addr : string) (err : OpenError) : error :=
  errors_New ("cannot create a server with addr=" ++ addr ++ ": " ++ Error err).

(** [Open]: the error it returns, the server afterwards, the calls made. *)
Definition Open (s : Server) : option error * Server * list Event :=
  let '(ins, err) := insert_Open (insertServer s) in
  let s1 := mkServer (closed s) (selectServer s) ins in
  match err with
  | Some err =>
      (Some (cannotCreate (insert_addr (insertServer s1)) err), s1,
       [InsertOpen (insertServer s)])
  | None =>
      let '(sel, err) := select_Open (selectServer s1) in
      let s2 := mkServer (closed s1) sel (insertServer s1) in
      match err with
      | Some err =>
          (Some (cannotCreate (select_addr (selectServer s2)) err), s2,
           [InsertOpen (insertServer s); SelectOpen (selectServer s)])
      | None =>
          (None, s2, [InsertOpen (insertServer s); SelectOpen (selectServer s)])
      end
  end.

(** [close(c)]: closing a closed channel panics. *)
Definition close (isClosed : bool) : Outcome bool :=
  if isClosed then Panic "close of closed channel" else Done true.

(** [select { case <-s.closed: default: close(s.closed) }]. *)
Definition setIsStopping (s : Server) : Outcome Server * list Event :=
  if closed s then (Done s, [])
  else
    match close (closed s) with
    | Done c => (Done (mkServer c (selectServer s) (insertServer s)), [CloseChan])
    | Panic reason => (Panic reason, [])
    end.

(** [MustClose]: a panic of [selectServer.Close] ends it before
    [insertServer.Close] is called. *)
Definition MustClose (s : Server) : Outcome Server * list Event :=
  match setIsStopping s with
  | (Done s, tr) =>
      match select_Close (selectServer s) with
      | Done sel =>
          match insert_Close (insertServer s) with
          | Done ins =>
              (Done (mkServer (closed s) sel ins),
               (tr ++ [SelectClose (selectServer s); InsertClose (insertServer s)])%list)
          | Panic reason =>
              (Panic reason,
               (tr ++ [SelectClose (selectServer s); InsertClose (insertServer s)])%list)
          end
      | Panic reason => (Panic reason, (tr ++ [SelectClose (selectServer s)])%list)
      end
  | (Panic reason, tr) => (Panic reason, tr)
  end.

(** [MustClose] called [n] times in a row. *)
Fixpoint MustCloseTimes (n : nat) (s : Server) : Outcome Server * list Event :=
  match n with
  | 0 => (Done s, [])
  | S n' =>
      match MustClose s with
      | (Done s', tr) =>
          let '(o, tr') := MustCloseTimes n' s' in (o, (tr ++ tr')%list)
      | (Panic reason, tr) => (Panic reason, tr)
      end
  end.

End Shell.

Arguments InsertOpen {InsertServer SelectServer} s.
Arguments SelectOpen {InsertServer SelectServer} s.
Arguments SelectClose {InsertServer SelectServer} s.
Arguments InsertClose {InsertServer SelectServer} s.
Arguments CloseChan {InsertServer SelectServer}.
Arguments isCloseChan {InsertServer SelectServer} e.
Arguments isSelectClose {InsertServer SelectServer} e.
Arguments isInsertClose {InsertServer SelectServer} e.
Arguments isSelectOpen {InsertServer SelectServer} e.
Arguments isInsertOpen {InsertServer SelectServer} e.

End Server.

(** ** The logger package

    The package variables [logger], [hooks], [initHandler] and [level], the
    functions that set and read them, and the pure helpers [rewriteLevel]
    and [makeErrFileName]. Levels are [zapcore.Level] values (int8 in the
    library). Of the hooks only their number and order are looked at, so
    they are kept as a list (nil and empty are not told apart). The init
    handler is taken not to call back into the package. *)

Module Logger.

Section Log.

Variables (Conf Hook ZapLogger Handler : Type).

Class Env : Type := mkEnv {
  DebugLevel : Z;                              (* zap.DebugLevel *)
  InfoLevel : Z;                               (* zap.InfoLevel *)
  ErrorLevel : Z;                              (* zapcore.ErrorLevel *)
  FatalLevel : Z;                              (* zap.FatalLevel *)
  conf_Level : Conf -> Z;                      (* conf.Level *)
  GetApp : Conf -> string;                     (* conf.GetApp() *)
  NewLumberjackLogger : Conf -> string -> Hook;

  (* zap.New(zapcore.NewTee(cores...), zap.AddCaller(), zap.Development()),
     each core being zapcore.NewCore(encoder, zapcore.AddSync(hook), enabler) *)
  zap_New : list (Hook * (Z -> bool)) -> ZapLogger
}.

Context {env : Env}.

Record Globals : Type := mkGlobals {
  logger : option ZapLogger;                   (* pointer to zap.Logger, nil = None *)
  hooks : list Hook;
  initHandler : option Handler;                (* func, nil = None *)
  level : Z
}.

Inductive Event : Type :=
| CallInitHandler (h : Handler) (l : option ZapLogger)
| UtilSetLogger (l : option ZapLogger)
| CryptoSetLogger (l : option ZapLogger)
| Sync (l : ZapLogger)
| HookClose (h : Hook).

Definition isHookClose (e : Event) : bool :=
  match e with HookClose _ => true | _ => false end.

Definition rewriteLevel (level : Z) : Z :=
  if (level <? DebugLevel)%Z || (FatalLevel <? level)%Z then InfoLevel else level.

Definition makeErrFileName (fileName : string) : string := fileName ++ ".error".

(** The two level enablers of [getLogger]: [levelNormal] for the
    configured level, [levelError]. *)
Definition levelNormal (confLevel : Z) : Z -> bool :=
  let logLevel := rewriteLevel confLevel in
  fun lvl => (logLevel <=? lvl)%Z.

Definition levelError : Z -> bool := fun lvl => (ErrorLevel <=? lvl)%Z.

Definition SetInitLoggerHandler (handler : option Handler) (g : Globals) : Globals :=
  mkGlobals (logger g) (hooks g) handler (level g).

Definition getLogger (conf : Conf) (g : Globals) : ZapLogger * Globals :=
  let hookNormal := NewLumberjackLogger conf (GetApp conf) in
  let hookError := NewLumberjackLogger conf (makeErrFileName (GetApp conf)) in
  let g := mkGlobals (logger g) (hooks g ++ [hookNormal; hookError])%list
                     (initHandler g) (level g) in
  (zap_New [(hookNormal, levelNormal (conf_Level conf)); (hookError, levelError)], g).

(** The call of the init handler, when there is one. *)
Definition notify (g : Globals) : list Event :=
  match initHandler g with
  | Some h => [CallInitHandler h (logger g)]
  | None => []
  end.

Definition InitLogger (conf : Conf) (g : Globals) : Globals * list Event :=
  let g := mkGlobals (logger g) (hooks g) (initHandler g) (conf_Level conf) in
  let '(l, g) := getLogger conf g in
  let g := mkGlobals (Some l) (hooks g) (initHandler g) (level g) in
  (g, (notify g ++ [UtilSetLogger (logger g); CryptoSetLogger (logger g)])%list).

Definition GetLogger (g : Globals) : option ZapLogger := logger g.

Definition SetLogger (zapLogger : option ZapLogger) (g : Globals) : Globals * list Event :=
  let g := mkGlobals zapLogger (hooks g) (initHandler g) (level g) in
  (g, notify g).

Definition closeHooks (g : Globals) : Globals * list Event :=
  if length (hooks g) =? 0 then (g, [])
  else (mkGlobals (logger g) [] (initHandler g) (level g), map HookClose (hooks g)).

(** [logger.Sync()] reads the logger it is called on: on a nil logger it
    is a nil dereference. *)
Definition CloseLogger (g : Globals) : Outcome Globals * list Event :=
  match logger g with
  | None => (Panic "invalid memory address or nil pointer dereference", [])
  | Some l =>
      let '(g, tr) := closeHooks g in
      (Done g, Sync l :: tr)
  end.

(** [InitLogger] for each configuration in turn. *)
Fixpoint InitLoggers (confs : list Conf) (g : Globals) : Globals * list Event :=
  match confs with
  | [] => (g, [])
  | conf :: confs' =>
      let '(g, tr) := InitLogger conf g in
      let '(g, tr') := InitLoggers confs' g in
      (g, (tr ++ tr')%list)
  end.

(** The hooks that [getLogger] opens for a configuration. *)
Definition hooksOf (conf : Conf) : list Hook :=
  [NewLumberjackLogger conf (GetApp conf);
   NewLumberjackLogger conf (makeErrFileName (GetApp conf))].

End Log.

Arguments CallInitHandler {Hook ZapLogger Handler} h l.
Arguments UtilSetLogger {Hook ZapLogger Handler} l.
Arguments CryptoSetLogger {Hook ZapLogger Handler} l.
Arguments Sync {Hook ZapLogger Handler} l.
Arguments HookClose {Hook ZapLogger Handler} h.
Arguments isHookClose {Hook ZapLogger Handler} e.
Arguments DebugLevel {Conf Hook ZapLogger Env}.
Arguments InfoLevel {Conf Hook ZapLogger Env}.
Arguments ErrorLevel {Conf Hook ZapLogger Env}.
Arguments FatalLevel {Conf Hook ZapLogger Env}.
Arguments hooksOf {Conf Hook ZapLogger env} conf.

End Logger.

(** ** Concrete shells and loggers *)

Module ShellDemo.

(** A listener is its address and whether it has been opened; only
    ":8400" and ":8401" can be bound, and closing a listener that was
    never opened is a nil dereference. *)
Definition Listener : Type := string * bool.

Definition open (free : string) (l : Listener) : Listener * option string :=
  if String.eqb (fst l) free then ((fst l, true), None)
  else (l, Some "bind: address already in use").

Definition shut (l : Listener) : Outcome Listener :=
  if snd l then Done l else Panic "invalid memory address or nil pointer dereference".

Definition env : Server.Env Listener Listener string :=
  {| Server.NewInsertServer := fun addr => (addr, false);
     Server.NewSelectServer := fun addr => (addr, false);
     Server.insert_addr := fst;
     Server.select_addr := fst;
     Server.insert_Open := open ":8400";
     Server.select_Open := open ":8401";
     Server.insert_Close := shut;
     Server.select_Close := shut;
     Server.Error := fun e => e |}.

(** A server on the two free addresses, as [NewServer] makes it and as
    [Open] leaves it. *)
Definition created : Server.Server Listener Listener :=
  Server.NewServer (env := env) ":8400" ":8401".

Definition opened : Server.Server Listener Listener :=
  snd (fst (Server.Open (env := env) created)).

End ShellDemo.

Module LogDemo.

(** A configuration is an application name and a level; a hook is known by
    its file name, a logger by its cores. The levels are those of zap. *)
Definition env : Logger.Env (string * Z) string (list (string * (Z -> bool))) :=
  {| Logger.DebugLevel := (-1)%Z;
     Logger.InfoLevel := 0%Z;
     Logger.ErrorLevel := 2%Z;
     Logger.FatalLevel := 5%Z;
     Logger.conf_Level := snd;
     Logger.GetApp := fst;
     Logger.NewLumberjackLogger := fun _ name => name;
     Logger.zap_New := fun cores => cores |}.

(** The package variables before anything is set. *)
Definition zero : Logger.Globals string (list (string * (Z -> bool))) unit :=
  Logger.mkGlobals None [] None 0%Z.

End LogDemo.

(** * Properties *)

Section Properties.

Context {RowBody StreamIdT Tag Field IndexT OptionBody Storage Engine : Type}.
Context {env : Env RowBody StreamIdT Tag Field IndexT OptionBody Storage}.

Local Abbreviation World := (World RowBody StreamIdT Tag Field IndexT OptionBody Storage Engine).
Local Abbreviation Work := (WritePointsWork RowBody StreamIdT Tag Field IndexT OptionBody Storage Engine).
Local Abbreviation Event := (Event RowBody StreamIdT Storage Engine).

Lemma calls_app (which : Event -> bool) (tr tr' : list Event) :
  calls which (tr ++ tr') = calls which tr + calls which tr'.
Proof. unfold calls. now rewrite filter_app, length_app. Qed.

Ltac run := unfold bind, getWork, setWork, emit, call, ret, checked, panic; cbn.

Ltac split_cases :=
  repeat match goal with
         | |- context [match ?x with _ => _ end] =>
             lazymatch x with
             | context [match _ with _ => _ end] => fail
             | context [decodeRows] => fail
             | _ => destruct x eqn:?; cbn
             end
         end.

Ltac logged := eexists; (split; [|reflexivity]); reflexivity.

(** Every way [decodeRows] and [decodePoints] can end: a panic leaves the
    trace as it was; a return with an error has logged once; a return
    without error has added to the counter once. The borrowed references
    and the stream variables are never touched. *)
Lemma decodeRows_ends db rp ptId shard ids tail (w : World) :
  match decodeRows db rp ptId shard ids tail w with
  | (Panic _, w') => trace w' = trace w
  | (Done r, w') =>
      storage (work w') = storage (work w) /\ stream (work w') = stream (work w) /\
      match err r with
      | Some _ => exists ev, isLog ev = true /\ trace w' = (trace w ++ [ev])%list
      | None => trace w' = (trace w ++ [AddWriteUnmarshalNs sinceNs])%list
      end
  end.
Proof.
  unfold decodeRows. run.
  split_cases; auto; repeat split; auto; logged.
Qed.

Local Arguments decodeRows : simpl never.

Lemma decodePoints_ends (w : World) :
  match decodePoints w with
  | (Panic _, w') => trace w' = trace w
  | (Done r, w') =>
      storage (work w') = storage (work w) /\ stream (work w') = stream (work w) /\
      match err r with
      | Some _ => exists ev, isLog ev = true /\ trace w' = (trace w ++ [ev])%list
      | None => trace w' = (trace w ++ [AddWriteUnmarshalNs sinceNs])%list
      end
  end.
Proof.
  unfold decodePoints. run.
  split_cases; auto; try apply decodeRows_ends; repeat split; auto; logged.
Qed.

(** ** Slices *)

Lemma len_truncate {A} (s : slice A) : len (truncate s) = 0.
Proof. destruct s; reflexivity. Qed.

Lemma cap_truncate {A} (s : slice A) : cap (truncate s) = cap s.
Proof.
  destruct s as [|e sp]; [reflexivity|].
  unfold cap; cbn. now rewrite length_app.
Qed.

Lemma from_Slice {A} (e sp : list A) (a : nat) :
  a <= length e -> from (Slice e sp) a = Some (Slice (skipn a e) sp).
Proof.
  intros H. unfold from, len; cbn.
  destruct (Nat.leb_spec a (length e)); [reflexivity|lia].
Qed.

Lemma upto_Slice {A} (e sp : list A) (b : nat) :
  b <= length e ->
  upto (Slice e sp) b = Some (Slice (firstn b e) (skipn b e ++ sp)).
Proof.
  intros H. unfold upto, cap; cbn.
  destruct (Nat.leb_spec b (length e + length sp)); [|lia].
  rewrite firstn_app, skipn_app.
  replace (b - length e) with 0 by lia. cbn.
  now rewrite app_nil_r.
Qed.

(** ** The frame parser inside decodePoints *)

(** On a buffer that the layout accepts, [decodePoints] reaches the row
    decoder with the fields and the payload of the layout. *)
Ltac go :=
  unfold bind, getWork, setWork, emit, call, checked, ret, panic;
  cbn -[Nat.leb Nat.ltb Nat.sub Byte.to_nat Byte.eqb string_of_list_byte decodeRows];
  rewrite ?skipn_O.

Ltac not_less :=
  match goal with
  | |- context [?a <? ?b] =>
      replace (a <? b) with false
        by (symmetry; apply Nat.ltb_ge; cbn [len elems length]; lia)
  end.

Lemma decodePoints_parsed (w : World) (h : Decoded) :
  parseFrame (elems (reqBuf (work w))) = Some h ->
  decodePoints w
  = decodeRows (db h) (rp h) (ptId h) (shard h) (streamShardIdList h) (binaryRows h) w.
Proof.
  unfold decodePoints, parseFrame. destruct w as [ww tr]. go.
  destruct (reqBuf ww) as [|buf sp]; [discriminate|].
  destruct buf as [|ty [|l1 buf]]; try discriminate.
  cbn [elems].
  destruct (Byte.eqb ty PackageTypeFast) eqn:Hty; [|discriminate].
  destruct (Nat.leb_spec (Byte.to_nat l1) (length buf)) as [H1|]; [|discriminate].
  cbn [andb].
  destruct (skipn (Byte.to_nat l1) buf) as [|l2 buf2] eqn:Hbuf2; [discriminate|].
  destruct (Nat.leb_spec (Byte.to_nat l2) (length buf2)) as [H2|]; [|discriminate].
  destruct (Nat.leb_spec 16 (length buf2 - Byte.to_nat l2)) as [H3|]; [|discriminate].
  cbn [andb].
  destruct (UnmarshalVarUint64s _ _) as [[ids payload] [e|]] eqn:Hvar; [discriminate|].
  intros [= <-]. cbn [db rp ptId shard streamShardIdList binaryRows].
  go. not_less. go.
  rewrite from_Slice by (cbn [length]; lia). go.
  not_less. go.
  rewrite from_Slice by (cbn [length]; lia). go.
  rewrite upto_Slice by assumption. go.
  rewrite from_Slice by assumption. go.
  rewrite Hbuf2. go.
  not_less. go.
  rewrite from_Slice by (cbn [length]; lia). go.
  rewrite upto_Slice by assumption. go.
  rewrite from_Slice by assumption. go.
  assert (Hlen : length (skipn (Byte.to_nat l2) buf2) = length buf2 - Byte.to_nat l2)
    by apply length_skipn.
  not_less. go.
  rewrite from_Slice by lia. go.
  rewrite from_Slice by (rewrite length_skipn; lia). go.
  rewrite from_Slice by (rewrite !length_skipn; lia). go.
  set (fixed := skipn (Byte.to_nat l2) buf2) in *.
  rewrite !skipn_skipn. cbn [Nat.add].
  rewrite Hvar. reflexivity.
Qed.

(** ** The layout and the parser *)

Lemma to_nat_byte_of_N (n : N) : (n < 256)%N -> Byte.to_nat (byte_of_N n) = N.to_nat n.
Proof.
  intros H. unfold byte_of_N. rewrite N.mod_small by assumption.
  destruct (Byte.of_N n) as [b|] eqn:E.
  - apply Byte.to_of_N in E. rewrite Byte.to_nat_via_N. now rewrite E.
  - apply Byte.of_N_None_iff in E. lia.
Qed.

Lemma length_list_byte_of_string (s : string) :
  length (list_byte_of_string s) = String.length s.
Proof.
  unfold list_byte_of_string. rewrite length_map.
  induction s as [|c s IH]; cbn; [reflexivity|now rewrite IH].
Qed.

Lemma name_prefix (name : string) (rest : list byte) :
  String.length name <= 255 ->
  let l := Byte.to_nat (byte_of_N (N.of_nat (String.length name))) in
  l = String.length name /\
  firstn l (list_byte_of_string name ++ rest) = list_byte_of_string name /\
  skipn l (list_byte_of_string name ++ rest) = rest.
Proof.
  intros H l.
  assert (Hl : l = String.length name).
  { unfold l. rewrite to_nat_byte_of_N by lia. apply Nat2N.id. }
  rewrite Hl, <- length_list_byte_of_string.
  split; [reflexivity|]. split.
  - now rewrite firstn_app, firstn_all, Nat.sub_diag, app_nil_r.
  - now rewrite skipn_app, skipn_all, Nat.sub_diag.
Qed.

Section Layout.

Context {m : Marshal} {laws : EncodingLaws env m}.

(** The parser reads back what the layout wrote. *)
Lemma parseFrame_encodeHeader (db rp : string) (ptId shard : N) (ids : list N)
    (payload : list byte) :
  validHeader db rp ptId shard ids ->
  parseFrame (encodeHeader PackageTypeFast db rp ptId shard ids ++ payload)
  = Some (mkDecoded db rp ptId shard ids payload None).
Proof.
  intros (Hdb & Hrp & Hpt & Hsh & Hn & Hids).
  unfold encodeHeader, parseFrame.
  repeat rewrite <- ?app_comm_cons, <- ?app_assoc.
  rewrite Byte.byte_dec_lb by reflexivity.
  set (fixed := (MarshalUint32 ptId ++ MarshalUint64 shard
                 ++ MarshalUint32 (N.of_nat (length ids))
                 ++ MarshalVarUint64s ids ++ payload)%list).
  destruct (name_prefix db
              (byte_of_N (N.of_nat (String.length rp)) :: list_byte_of_string rp ++ fixed)
              Hdb) as (L1 & F1 & S1).
  destruct (name_prefix rp fixed Hrp) as (L2 & F2 & S2).
  assert (Hfixed : 16 <= length fixed).
  { unfold fixed. rewrite !length_app, !MarshalUint32_length, MarshalUint64_length. lia. }
  rewrite F1, S1, F2, S2, L1, L2, !length_app, !length_list_byte_of_string. cbn [length].
  rewrite !length_app, !length_list_byte_of_string.
  replace (String.length db <=? _) with true by (symmetry; apply Nat.leb_le; lia).
  replace (String.length rp <=? _) with true by (symmetry; apply Nat.leb_le; lia).
  replace (16 <=? _) with true by (symmetry; apply Nat.leb_le; lia).
  cbn [andb]. rewrite !string_of_list_byte_of_string.
  assert (H12 : skipn 12 fixed
                = (MarshalUint32 (N.of_nat (length ids)) ++ MarshalVarUint64s ids ++ payload)%list).
  { unfold fixed. rewrite app_assoc, skipn_app.
    rewrite skipn_all2 by (rewrite length_app, MarshalUint32_length, MarshalUint64_length; lia).
    rewrite length_app, MarshalUint32_length, MarshalUint64_length. reflexivity. }
  assert (H4 : skipn 4 fixed
               = (MarshalUint64 shard ++ MarshalUint32 (N.of_nat (length ids))
                  ++ MarshalVarUint64s ids ++ payload)%list).
  { unfold fixed. rewrite skipn_app.
    rewrite skipn_all2 by (rewrite MarshalUint32_length; lia).
    rewrite MarshalUint32_length. reflexivity. }
  assert (H16 : skipn 16 fixed = (MarshalVarUint64s ids ++ payload)%list).
  { change 16 with (4 + 12). rewrite <- skipn_skipn, H12, skipn_app.
    rewrite skipn_all2 by (rewrite MarshalUint32_length; lia).
    rewrite MarshalUint32_length. reflexivity. }
  rewrite H4, H12, H16.
  unfold fixed. rewrite !UnmarshalUint32_Marshal, UnmarshalUint64_Marshal by assumption.
  rewrite Nat2N.id, UnmarshalVarUint64s_Marshal by assumption.
  reflexivity.
Qed.

End Layout.

(** ** The row stage *)

Lemma setStreamVars_completes (rs : list (Row RowBody StreamIdT))
    (vars : list (option (StreamVar StreamIdT))) :
  length rs = length vars ->
  Forall (fun v => v <> None) vars ->
  snd (setStreamVars rs vars) = None.
Proof.
  revert vars. induction rs as [|r rs IH]; intros vars Hlen Hvars.
  - reflexivity.
  - destruct vars as [|[v|] vars]; try discriminate.
    + inversion Hvars; subst. injection Hlen as Hlen.
      specialize (IH vars Hlen ltac:(assumption)).
      cbn. destruct (setStreamVars rs vars) as [out stop]. exact IH.
    + inversion Hvars; subst. congruence.
Qed.

(** When the row decoder returns and no stream variable is a nil pointer,
    the row stage returns, and whatever it returns carries the header
    fields and the payload it was given. *)
Lemma decodeRows_returns db rp ptId shard ids tail (w : World) out :
  FastUnmarshalMultiRows tail
    (truncate (rows (work w))) (truncate (tagpools (work w)))
    (truncate (fieldpools (work w)))
    (truncate (truncateIndexLists (indexOptionpools (work w))))
    (truncate (indexKeypools (work w)))
  = Done out ->
  Forall (fun v => v <> None) (elems (streamVars (work w))) ->
  exists e w',
    decodeRows db rp ptId shard ids tail w
    = (Done (mkDecoded db rp ptId shard ids tail e), w').
Proof.
  intros Hrows Hvars. unfold decodeRows. run. rewrite Hrows. cbn.
  destruct out as [[[[[rs ts] fs] os] ks] [e|]]; cbn.
  - eauto.
  - destruct ids as [|i ids]; cbn; [eauto|].
    destruct (Nat.eqb_spec (len rs) (len (streamVars (work w)))) as [Hlen|]; cbn; [|eauto].
    pose proof (@setStreamVars_completes (elems rs) _ Hlen Hvars) as Hstop.
    destruct (setStreamVars (elems rs) (elems (streamVars (work w)))) as [annotated stop].
    cbn in Hstop. subst stop. cbn. eauto.
Qed.

(** A panic of the row decoder is the panic of the row stage; nothing has
    been logged or counted by then. *)
Lemma decodeRows_decoder_panics db rp ptId shard ids tail (w : World) reason :
  FastUnmarshalMultiRows tail
    (truncate (rows (work w))) (truncate (tagpools (work w)))
    (truncate (fieldpools (work w)))
    (truncate (truncateIndexLists (indexOptionpools (work w))))
    (truncate (indexKeypools (work w)))
  = Panic reason ->
  fst (decodeRows db rp ptId shard ids tail w) = Panic reason
  /\ trace (snd (decodeRows db rp ptId shard ids tail w)) = trace w.
Proof.
  intros Hrows. unfold decodeRows. run. rewrite Hrows. cbn. split; reflexivity.
Qed.

Lemma decodeRows_fields db rp ptId shard ids tail (w : World) r w' :
  decodeRows db rp ptId shard ids tail w = (Done r, w') ->
  r = mkDecoded db rp ptId shard ids tail (err r).
Proof.
  unfold decodeRows. run.
  split_cases; intros [= <- <-]; reflexivity.
Qed.

Section Roundtrip.

Context {m : Marshal} {laws : EncodingLaws env m}.

(** C5, as the code has it. On a frame written by the layout from fields
    that fit it, followed by any payload: whenever [decodePoints] returns
    (with or without an error of the row stage), it returns those fields
    and that payload, so that re-encoding the returned fields gives back
    the header bytes, and with the returned payload appended the whole
    request buffer. It does return when the row decoder returns on the
    payload and no stream variable is a nil pointer; when the row decoder
    panics on the payload, [decodePoints] panics. *)
Theorem decodePoints_roundtrip (w : World) (db' rp' : string) (ptId' shard' : N)
    (ids : list N) (payload sp : list byte) :
  validHeader db' rp' ptId' shard' ids ->
  reqBuf (work w)
  = Slice (encodeHeader PackageTypeFast db' rp' ptId' shard' ids ++ payload) sp ->
  let decoded :=
    FastUnmarshalMultiRows payload
      (truncate (rows (work w))) (truncate (tagpools (work w)))
      (truncate (fieldpools (work w)))
      (truncate (truncateIndexLists (indexOptionpools (work w))))
      (truncate (indexKeypools (work w))) in
  (forall r w',
      decodePoints w = (Done r, w') ->
      (db r, rp r, ptId r, shard r, streamShardIdList r) = (db', rp', ptId', shard', ids)
      /\ encodeHeader PackageTypeFast (db r) (rp r) (ptId r) (shard r) (streamShardIdList r)
         = encodeHeader PackageTypeFast db' rp' ptId' shard' ids
      /\ binaryRows r = payload
      /\ (encodeHeader PackageTypeFast (db r) (rp r) (ptId r) (shard r) (streamShardIdList r)
          ++ binaryRows r)%list = elems (reqBuf (work w)))
  /\ (forall out,
        decoded = Done out ->
        Forall (fun v => v <> None) (elems (streamVars (work w))) ->
        exists r w', decodePoints w = (Done r, w'))
  /\ (forall reason, decoded = Panic reason -> fst (decodePoints w) = Panic reason).
Proof.
  intros Hvalid Hbuf decoded. subst decoded.
  pose proof (parseFrame_encodeHeader payload Hvalid) as Hparse.
  rewrite (decodePoints_parsed w (h := mkDecoded db' rp' ptId' shard' ids payload None))
    by (rewrite Hbuf; exact Hparse).
  cbn [db rp ptId shard streamShardIdList binaryRows].
  split; [|split].
  - intros r w' Hdec. apply decodeRows_fields in Hdec. rewrite Hdec, Hbuf. cbn.
    repeat split; reflexivity.
  - intros out Hrows Hvars.
    destruct (decodeRows_returns db' rp' ptId' shard' ids payload w Hrows Hvars)
      as (e & w' & ->).
    eauto.
  - intros reason Hrows.
    apply (decodeRows_decoder_panics db' rp' ptId' shard' ids payload w Hrows).
Qed.

End Roundtrip.

(** ** The protocol tag *)

(** C8. A buffer whose first byte is not the fast-marshal tag is rejected
    whatever follows: with "not a fast marshal points package" when it has
    at least two bytes, with "invalid points buffer" when it is that byte
    alone. Nothing else is parsed: the results are the zero values, the
    work object is untouched and the only call made is the one log line. *)
Theorem decodePoints_wrong_tag (ww : Work) (tr : list Event) (b : byte) (rest sp : list byte) :
  b <> PackageTypeFast ->
  reqBuf ww = Slice (b :: rest) sp ->
  let e := errors_New (match rest with
                       | [] => "invalid points buffer"
                       | _ :: _ => "not a fast marshal points package"
                       end) in
  decodePoints (mkWorld ww tr)
  = (Done (mkDecoded "" "" 0 0 [] [] (Some e)), mkWorld ww (tr ++ [LogErrorOf e])).
Proof.
  intros Hb Hbuf. unfold decodePoints. run. rewrite Hbuf.
  destruct rest as [|c rest]; cbn; [reflexivity|].
  destruct (Byte.eqb b PackageTypeFast) eqn:E; [|reflexivity].
  apply Byte.byte_dec_bl in E. contradiction.
Qed.

(** ** The decode-latency counter *)

Lemma WriteUnmarshalNs_app (c : Z) (tr tr' : list Event) :
  WriteUnmarshalNs c (tr ++ tr') = WriteUnmarshalNs (WriteUnmarshalNs c tr) tr'.
Proof. unfold WriteUnmarshalNs. apply fold_left_app. Qed.

Lemma WriteUnmarshalNs_log (c : Z) (tr : list Event) (ev : Event) :
  isLog ev = true -> WriteUnmarshalNs c (tr ++ [ev]) = WriteUnmarshalNs c tr.
Proof. intros H. rewrite WriteUnmarshalNs_app. destruct ev; try discriminate; reflexivity. Qed.

Lemma calls_log (tr : list Event) (ev : Event) :
  isLog ev = true ->
  calls isAddWriteUnmarshalNs (tr ++ [ev]) = calls isAddWriteUnmarshalNs tr.
Proof.
  intros H. rewrite calls_app. destruct ev; try discriminate; cbn; lia.
Qed.

(** C10. A call of [decodePoints] that returns without error adds to
    [WriteUnmarshalNs] exactly once (the elapsed nanoseconds); a call that
    returns an error, or panics, leaves the counter alone. *)
Theorem decodePoints_WriteUnmarshalNs (w : World) (before : Z) :
  let '(o, w') := decodePoints w in
  let ok := match o with
            | Done r => negb (notnil (err r))
            | Panic _ => false
            end in
  calls isAddWriteUnmarshalNs (trace w')
  = calls isAddWriteUnmarshalNs (trace w) + (if ok then 1 else 0)
  /\ WriteUnmarshalNs before (trace w')
     = if ok then int64 (WriteUnmarshalNs before (trace w) + sinceNs)
       else WriteUnmarshalNs before (trace w).
Proof.
  pose proof (decodePoints_ends w) as H.
  destruct (decodePoints w) as [[r|reason] w'].
  - destruct H as (_ & _ & H). destruct (err r); cbn.
    + destruct H as (ev & Hlog & ->).
      rewrite calls_log, WriteUnmarshalNs_log by assumption. split; [lia|reflexivity].
    + rewrite H, calls_app, WriteUnmarshalNs_app. split; reflexivity.
  - rewrite H. split; [lia|reflexivity].
Qed.

(** ** WritePoints *)

Local Arguments decodePoints : simpl never.

Local Arguments calls : simpl never.

Ltac count := subst; repeat rewrite calls_app; unfold calls; cbn; try lia.

(** C3. After a successful decode and a successful primary write, with
    replication enabled, [WritePoints] calls the replica once and ends as
    the replica call ends, so a replica failure reaches the caller. When
    replication is disabled, or when the primary write fails (returns an
    error, or panics), the replica is not called (and [WritePoints] ends
    as the primary write ended). *)
Theorem WritePoints_replica (w : World) :
  let slave := calls isStorageWriteRowsToSlave in
  let result := WritePoints w in
  (IsReplication = false -> slave (trace (snd result)) = slave (trace w))
  /\ forall r w1,
       decodePoints w = (Done r, w1) -> err r = None ->
       let primary := storage_WriteRows (storage (work w1)) (db r) (rp r) (ptId r) (shard r)
                                        (rows (work w1)) (binaryRows r) in
       let replica := storage_WriteRowsToSlave (storage (work w1)) (rows (work w1))
                                               (db r) (rp r) (ptId r) (shard r) in
       (primary <> Done None ->
        fst result = primary /\ slave (trace (snd result)) = slave (trace w))
       /\ (primary = Done None -> IsReplication = true ->
           fst result = replica
           /\ slave (trace (snd result)) = slave (trace w) + 1).
Proof.
  intros slave result. subst slave result.
  pose proof (decodePoints_ends w) as Hends.
  unfold WritePoints. run.
  destruct (decodePoints w) as [[r|reason] w1]; cbn.
  - destruct Hends as (_ & _ & Hends).
    destruct (err r) as [e|] eqn:He; cbn.
    + destruct Hends as (ev & Hlog & ->). split.
      * intros _. destruct ev; try discriminate; count.
      * intros r' w1' [= <- <-]. congruence.
    + destruct (storage_WriteRows _ _ _ _ _ _ _) as [[e|]|reason] eqn:Hprimary; cbn.
      * split; [intros _; rewrite Hends; count|].
        intros r' w1' [= <- <-] _. cbn. rewrite Hprimary. split.
        -- intros _. split; [reflexivity|]. rewrite Hends; count.
        -- discriminate.
      * destruct IsReplication eqn:Hrep; cbn.
        -- split; [discriminate|].
           intros r' w1' [= <- <-] _. cbn. rewrite Hprimary. split.
           ++ congruence.
           ++ intros _ _.
              destruct (storage_WriteRowsToSlave _ _ _ _ _ _) as [e|reason];
                (split; [reflexivity|]); cbn; rewrite Hends; count.
        -- split; [intros _; rewrite Hends; count|].
           intros r' w1' [= <- <-] _. cbn. rewrite Hprimary. split.
           ++ congruence.
           ++ discriminate.
      * split; [intros _; rewrite Hends; count|].
        intros r' w1' [= <- <-] _. cbn. rewrite Hprimary. split.
        -- intros _. split; [reflexivity|]. rewrite Hends; count.
        -- discriminate.
  - split; [intros _; congruence|]. discriminate.
Qed.

(** ** WriteStreamPoints *)

Local Arguments Nat.modulo : simpl never.

(** C9. [WriteStreamPoints] calls the stream engine (once) and reports
    [true] exactly when the decode returned no error, the primary write
    returned no error, a stream engine is attached, and the stream-shard id
    list is non-empty and of even length. In every other case, a failed
    primary write among them (an error returned, or a panic), the stream
    engine is not called and [true] is not reported. *)
Theorem WriteStreamPoints_dispatch (w : World) :
  let streamed := calls isStreamWriteRows in
  let result := WriteStreamPoints w in
  let due :=
    match decodePoints w with
    | (Done r, w1) =>
        negb (notnil (err r))
        && returnedNil (storage_WriteRows (storage (work w1)) (db r) (rp r) (ptId r)
                                          (shard r) (rows (work w1)) (binaryRows r))
        && notnil (stream (work w))
        && negb (length (streamShardIdList r) =? 0)
        && (length (streamShardIdList r) mod 2 =? 0)
    | (Panic _, _) => false
    end in
  streamed (trace (snd result)) = streamed (trace w) + (if due then 1 else 0)
  /\ (due = true -> fst result = Done (None, true))
  /\ (due = false -> forall e, fst result <> Done (e, true)).
Proof.
  intros streamed result due. subst streamed result due.
  pose proof (decodePoints_ends w) as Hends.
  unfold WriteStreamPoints. run.
  destruct (decodePoints w) as [[r|reason] w1]; cbn.
  - destruct Hends as (_ & <- & Hends).
    destruct (err r) as [e|] eqn:He; cbn.
    + destruct Hends as (ev & Hlog & ->).
      split; [destruct ev; try discriminate; count|].
      split; [discriminate|]. intros _ e'. congruence.
    + rewrite Hends.
      destruct (storage_WriteRows _ _ _ _ _ _ _) as [[e|]|reason];
        destruct (stream (work w1)) as [eng|];
        destruct (length (streamShardIdList r)) as [|n];
        cbn;
        try destruct (S n mod 2 =? 0);
        cbn;
        (split; [count|]);
        (split; [try discriminate; reflexivity | try discriminate; intros _ e'; congruence]).
  - rewrite Hends. split; [lia|]. split; [discriminate|]. intros _ e. congruence.
Qed.

(** C4, as the code has it. When [decodePoints] panics (as it does on a
    nil stream variable), [WriteStreamPoints] panics with it, and nothing
    has been written or dispatched. When [decodePoints] returns a
    stream-shard id list of odd length, [WriteStreamPoints] never calls the
    stream engine and never reports [true]. After a decode error it returns
    that error wrapped in the unmarshal-points kind. After a decode without
    error it makes the primary write, and a panic there is its own panic;
    when the primary write returns, a stream engine attached makes the
    result an error of the unmarshal-points kind (wrapping what the primary
    write returned), and with no stream engine attached the result is what
    the primary write returned, nil when it succeeded. *)
Theorem WriteStreamPoints_odd (w : World) :
  (forall reason w1,
      decodePoints w = (Panic reason, w1) ->
      WriteStreamPoints w = (Panic reason, w1) /\ trace w1 = trace w)
  /\ (forall r w1,
        decodePoints w = (Done r, w1) ->
        length (streamShardIdList r) mod 2 = 1 ->
        let result := WriteStreamPoints w in
        let primary := storage_WriteRows (storage (work w1)) (db r) (rp r) (ptId r) (shard r)
                                         (rows (work w1)) (binaryRows r) in
        calls isStreamWriteRows (trace (snd result)) = calls isStreamWriteRows (trace w)
        /\ (forall e, fst result <> Done (e, true))
        /\ (forall e0,
              err r = Some e0 ->
              fst result = Done (Some (errno_NewError ErrUnmarshalPoints (Some e0)), false))
        /\ (err r = None ->
            match primary with
            | Done p =>
                fst result
                = Done (if notnil (stream (work w))
                        then Some (errno_NewError ErrUnmarshalPoints p)
                        else p,
                        false)
            | Panic reason => fst result = Panic reason
            end)).
Proof.
  pose proof (decodePoints_ends w) as Hends. split.
  - intros reason w1 Hdec. rewrite Hdec in Hends.
    unfold WriteStreamPoints. run. rewrite Hdec. split; [reflexivity|assumption].
  - intros r w1 Hdec Hodd result primary. subst result primary.
    rewrite Hdec in Hends. destruct Hends as (_ & Hstream & Hends).
    unfold WriteStreamPoints. run. rewrite Hdec. cbn.
    destruct (err r) as [e|] eqn:He; cbn.
    + destruct Hends as (ev & Hlog & ->).
      split; [destruct ev; try discriminate; count|].
      split; [intros e'; congruence|].
      split; [intros e0 [= <-]; reflexivity|discriminate].
    + rewrite Hends, Hstream.
      destruct (length (streamShardIdList r)) as [|n] eqn:Hn; [discriminate|].
      rewrite Hodd.
      destruct (storage_WriteRows _ _ _ _ _ _ _) as [[e|]|reason] eqn:Hprimary;
        destruct (stream (work w)) as [eng|]; cbn;
        (split; [count|]);
        (split; [intros e'; congruence|]);
        (split; [discriminate|intros _; reflexivity]).
Qed.

(** ** Stream variables that do not match the rows *)

Lemma decodeRows_mismatch db rp ptId shard ids tail (w : World) rows' tags' fields' opts' keys' :
  ids <> [] ->
  FastUnmarshalMultiRows tail
    (truncate (rows (work w))) (truncate (tagpools (work w)))
    (truncate (fieldpools (work w)))
    (truncate (truncateIndexLists (indexOptionpools (work w))))
    (truncate (indexKeypools (work w)))
  = Done (rows', tags', fields', opts', keys', None) ->
  len rows' <> len (streamVars (work w)) ->
  exists ww,
    decodeRows db rp ptId shard ids tail w
    = (Done (mkDecoded db rp ptId shard ids tail (Some (errors_New mismatch_msg))),
       mkWorld ww (trace w ++ [LogError mismatch_msg])).
Proof.
  intros Hids Hrows Hlen. unfold decodeRows. run. rewrite Hrows. cbn.
  destruct ids as [|i ids]; [congruence|]. cbn.
  destruct (Nat.eqb_spec (len rows') (len (streamVars (work w)))); [contradiction|].
  cbn. eauto.
Qed.

(** C2, as the code has it. When the frame carries a non-empty
    stream-shard id list, the row decoder succeeds, and the number of
    stream variables differs from the number of decoded rows, both entry
    points fail with the mismatch error wrapped in the unmarshal-points
    kind, [WriteStreamPoints] reports [false], and nothing downstream is
    called: not the storage write, not the replica, not the stream engine. *)
Theorem stream_vars_mismatch (w : World) (h : Decoded) rows' tags' fields' opts' keys' :
  parseFrame (elems (reqBuf (work w))) = Some h ->
  streamShardIdList h <> [] ->
  FastUnmarshalMultiRows (binaryRows h)
    (truncate (rows (work w))) (truncate (tagpools (work w)))
    (truncate (fieldpools (work w)))
    (truncate (truncateIndexLists (indexOptionpools (work w))))
    (truncate (indexKeypools (work w)))
  = Done (rows', tags', fields', opts', keys', None) ->
  len rows' <> len (streamVars (work w)) ->
  let e := errno_NewError ErrUnmarshalPoints (Some (errors_New mismatch_msg)) in
  fst (WritePoints w) = Done (Some e)
  /\ calls isDownstream (trace (snd (WritePoints w))) = calls isDownstream (trace w)
  /\ fst (WriteStreamPoints w) = Done (Some e, false)
  /\ calls isDownstream (trace (snd (WriteStreamPoints w))) = calls isDownstream (trace w).
Proof.
  intros Hparse Hids Hrows Hlen e.
  destruct (decodeRows_mismatch (db h) (rp h) (ptId h) (shard h) (binaryRows h) w
              Hids Hrows Hlen) as [ww Hdec].
  unfold WritePoints, WriteStreamPoints. run.
  rewrite (decodePoints_parsed w Hparse), Hdec. cbn.
  repeat split; count.
Qed.

(** ** Truncated names *)

(** C1, where the code departs from it. After a correct tag, a database
    name that is complete but followed by nothing (the length byte of the
    retention policy is missing) makes [decodePoints] panic with an index
    out of range, and a database name that is one byte short makes it
    panic with slice bounds out of range: the length test counts the
    length byte itself. Neither returns an error. *)
Theorem decodePoints_truncated_name_panics (ww : Work) (tr : list Event)
    (l1 : byte) (name sp : list byte) :
  reqBuf ww = Slice (PackageTypeFast :: l1 :: name) sp ->
  (length name = Byte.to_nat l1 ->
   fst (decodePoints (mkWorld ww tr)) = Panic index_out_of_range)
  /\ (S (length name) = Byte.to_nat l1 ->
      fst (decodePoints (mkWorld ww tr)) = Panic slice_bounds_out_of_range).
Proof.
  intros Hbuf. unfold decodePoints. go. rewrite Hbuf. go.
  rewrite Byte.byte_dec_lb by reflexivity. go.
  not_less. go.
  rewrite from_Slice by (cbn [length]; lia). go.
  split; intros Hlen.
  - not_less. go.
    rewrite from_Slice by (cbn [length]; lia). go.
    rewrite upto_Slice by lia. go.
    rewrite from_Slice by lia. go.
    rewrite <- Hlen, skipn_all. reflexivity.
  - not_less. go.
    rewrite from_Slice by (cbn [length]; lia). go.
    unfold upto, from, cap, len. cbn [elems spare].
    destruct (Byte.to_nat l1 <=? length name + length sp);
      destruct (Nat.leb_spec (Byte.to_nat l1) (length name)); try lia; reflexivity.
Qed.

(** ** The designated errors

    The short buffers on which [decodePoints] does answer with the error
    of the step. *)

(** X1. A request buffer of fewer than two bytes (nil, empty, or one byte
    whatever it is) is answered with "invalid points buffer": zero results,
    the work object untouched, one log line. *)
Lemma decodePoints_invalid_points_buffer (w : World) :
  len (reqBuf (work w)) < 2 ->
  let e := errors_New "invalid points buffer" in
  decodePoints w
  = (Done (mkDecoded "" "" 0 0 [] [] (Some e)), mkWorld (work w) (trace w ++ [LogErrorOf e])).
Proof.
  intros Hlen. unfold decodePoints. go.
  destruct (Nat.ltb_spec (len (reqBuf (work w))) 2); [reflexivity|lia].
Qed.

(** X2. After a correct tag, a database-name length that exceeds the bytes
    left by two or more is answered with "no data for db name". *)
Lemma decodePoints_no_data_for_db_name (w : World) (l1 : byte) (rest sp : list byte) :
  reqBuf (work w) = Slice (PackageTypeFast :: l1 :: rest) sp ->
  S (length rest) < Byte.to_nat l1 ->
  let e := errors_New "no data for db name" in
  decodePoints w
  = (Done (mkDecoded "" "" 0 0 [] [] (Some e)), mkWorld (work w) (trace w ++ [LogErrorOf e])).
Proof.
  intros Hbuf Hlen. unfold decodePoints. go. rewrite Hbuf. go.
  rewrite Byte.byte_dec_lb by reflexivity. go.
  not_less. go.
  rewrite from_Slice by (cbn [length]; lia). go.
  destruct (Nat.ltb_spec (S (length rest)) (Byte.to_nat l1)); [reflexivity|lia].
Qed.

(** X3. After a complete database name, a retention-policy length that
    exceeds the bytes left by two or more is answered with "no data for rp
    name"; the database name read so far is returned with the error. *)
Lemma decodePoints_no_data_for_rp_name (w : World) (l1 l2 : byte) (name rest sp : list byte) :
  reqBuf (work w) = Slice (PackageTypeFast :: l1 :: name ++ l2 :: rest) sp ->
  length name = Byte.to_nat l1 ->
  S (length rest) < Byte.to_nat l2 ->
  let e := errors_New "no data for rp name" in
  decodePoints w
  = (Done (mkDecoded (string_of_list_byte name) "" 0 0 [] [] (Some e)),
     mkWorld (work w) (trace w ++ [LogErrorOf e])).
Proof.
  intros Hbuf Hname Hlen. unfold decodePoints. go. rewrite Hbuf. go.
  rewrite Byte.byte_dec_lb by reflexivity. go.
  not_less. go.
  rewrite from_Slice by (cbn [length]; lia). go.
  replace (S (length (name ++ l2 :: rest)) <? Byte.to_nat l1) with false
    by (symmetry; apply Nat.ltb_ge; rewrite length_app; lia).
  go.
  rewrite from_Slice by (cbn [length]; lia). go.
  rewrite upto_Slice by (rewrite length_app; lia). go.
  rewrite from_Slice by (rewrite length_app; lia). go.
  rewrite <- Hname, skipn_app, skipn_all, Nat.sub_diag, firstn_app, firstn_all, Nat.sub_diag.
  go. rewrite app_nil_r.
  destruct (Nat.ltb_spec (S (length rest)) (Byte.to_nat l2)); [reflexivity|lia].
Qed.

(** X4. After both names, fewer than sixteen bytes left is answered with
    "no data for points data"; both names are returned with the error. *)
Lemma decodePoints_no_data_for_points_data (w : World) (l1 l2 : byte)
    (name1 name2 rest sp : list byte) :
  reqBuf (work w) = Slice (PackageTypeFast :: l1 :: name1 ++ l2 :: name2 ++ rest) sp ->
  length name1 = Byte.to_nat l1 ->
  length name2 = Byte.to_nat l2 ->
  length rest < 16 ->
  let e := errors_New "no data for points data" in
  decodePoints w
  = (Done (mkDecoded (string_of_list_byte name1) (string_of_list_byte name2) 0 0 [] []
             (Some e)),
     mkWorld (work w) (trace w ++ [LogErrorOf e])).
Proof.
  intros Hbuf Hname1 Hname2 Hlen. unfold decodePoints. go. rewrite Hbuf. go.
  rewrite Byte.byte_dec_lb by reflexivity. go.
  not_less. go.
  rewrite from_Slice by (cbn [length]; lia). go.
  replace (S (length (name1 ++ l2 :: name2 ++ rest)) <? Byte.to_nat l1) with false
    by (symmetry; apply Nat.ltb_ge; rewrite length_app; lia).
  go.
  rewrite from_Slice by (cbn [length]; lia). go.
  rewrite upto_Slice by (rewrite length_app; lia). go.
  rewrite from_Slice by (rewrite length_app; lia). go.
  rewrite <- Hname1, skipn_app, skipn_all, Nat.sub_diag, firstn_app, firstn_all, Nat.sub_diag.
  go. rewrite app_nil_r.
  replace (S (length (name2 ++ rest)) <? Byte.to_nat l2) with false
    by (symmetry; apply Nat.ltb_ge; rewrite length_app; lia).
  go.
  rewrite from_Slice by (cbn [length]; lia). go.
  rewrite upto_Slice by (rewrite length_app; lia). go.
  rewrite from_Slice by (rewrite length_app; lia). go.
  rewrite <- Hname2, skipn_app, skipn_all, Nat.sub_diag, firstn_app, firstn_all, Nat.sub_diag.
  go. rewrite app_nil_r.
  destruct (Nat.ltb_spec (length rest) 16); [reflexivity|lia].
Qed.

(** X5. When the varint decoder rejects the stream-shard id list, its error
    is returned as it is and logged once; the names, the partition id and
    the shard id read before are returned with it, the payload is not. *)
Lemma decodePoints_varint_error (w : World) (l1 l2 : byte)
    (name1 name2 fixed sp : list byte) (ids : list N) (tail : list byte) (e : error) :
  reqBuf (work w) = Slice (PackageTypeFast :: l1 :: name1 ++ l2 :: name2 ++ fixed) sp ->
  length name1 = Byte.to_nat l1 ->
  length name2 = Byte.to_nat l2 ->
  16 <= length fixed ->
  UnmarshalVarUint64s (N.to_nat (UnmarshalUint32 (skipn 12 fixed))) (skipn 16 fixed)
  = (ids, tail, Some e) ->
  decodePoints w
  = (Done (mkDecoded (string_of_list_byte name1) (string_of_list_byte name2)
             (UnmarshalUint32 fixed) (UnmarshalUint64 (skipn 4 fixed)) ids [] (Some e)),
     mkWorld (work w) (trace w ++ [LogErrorOf e])).
Proof.
  intros Hbuf Hname1 Hname2 Hlen Hvar. unfold decodePoints. go. rewrite Hbuf. go.
  rewrite Byte.byte_dec_lb by reflexivity. go.
  not_less. go.
  rewrite from_Slice by (cbn [length]; lia). go.
  replace (S (length (name1 ++ l2 :: name2 ++ fixed)) <? Byte.to_nat l1) with false
    by (symmetry; apply Nat.ltb_ge; rewrite length_app; lia).
  go.
  rewrite from_Slice by (cbn [length]; lia). go.
  rewrite upto_Slice by (rewrite length_app; lia). go.
  rewrite from_Slice by (rewrite length_app; lia). go.
  rewrite <- Hname1, skipn_app, skipn_all, Nat.sub_diag, firstn_app, firstn_all, Nat.sub_diag.
  go. rewrite app_nil_r.
  replace (S (length (name2 ++ fixed)) <? Byte.to_nat l2) with false
    by (symmetry; apply Nat.ltb_ge; rewrite length_app; lia).
  go.
  rewrite from_Slice by (cbn [length]; lia). go.
  rewrite upto_Slice by (rewrite length_app; lia). go.
  rewrite from_Slice by (rewrite length_app; lia). go.
  rewrite <- Hname2, skipn_app, skipn_all, Nat.sub_diag, firstn_app, firstn_all, Nat.sub_diag.
  go. rewrite app_nil_r.
  not_less. go.
  rewrite from_Slice by lia. go.
  rewrite from_Slice by (rewrite length_skipn; lia). go.
  rewrite from_Slice by (rewrite !length_skipn; lia). go.
  rewrite !skipn_skipn. cbn [Nat.add].
  rewrite Hvar. reflexivity.
Qed.

(** ** reset and the pool *)

(** C6, as the code has it. [reset] drops the request buffer and the rows
    together, and notes the time, when one of the two is filled beyond a
    quarter of its capacity and more than ten seconds have passed since the
    last reset time; otherwise both keep their capacity and only their
    length goes to zero. *)
Theorem reset_shrink (now now' : N) (ww : Work) :
  let ww' := reset now now' ww in
  let due := (cap (reqBuf ww) < len (reqBuf ww) * 4 \/ cap (rows ww) < len (rows ww) * 4)
             /\ (10 < uint64_sub now (lastResetTime ww))%N in
  (due -> reqBuf ww' = Nil /\ rows ww' = Nil /\ lastResetTime ww' = now')
  /\ (~ due ->
      len (reqBuf ww') = 0 /\ cap (reqBuf ww') = cap (reqBuf ww)
      /\ len (rows ww') = 0 /\ cap (rows ww') = cap (rows ww)
      /\ lastResetTime ww' = lastResetTime ww).
Proof.
  intros ww' due. subst ww' due. unfold reset. cbn [reqBuf rows lastResetTime].
  destruct (Nat.ltb_spec (cap (reqBuf ww)) (len (reqBuf ww) * 4));
    destruct (Nat.ltb_spec (cap (rows ww)) (len (rows ww) * 4));
    destruct (N.ltb_spec 10 (uint64_sub now (lastResetTime ww)));
    cbn [orb andb truncate];
    (split; [intros [Hgrow Hlate]|intros Hnot]);
    rewrite ?len_truncate, ?cap_truncate;
    try (repeat split; reflexivity);
    try (exfalso; lia);
    exfalso; apply Hnot; split; auto.
Qed.

Lemma clean_reset (now now' : N) (ww : Work) : clean (reset now now' ww).
Proof.
  unfold clean, reset. cbn [rows tagpools fieldpools indexKeypools indexOptionpools
                                 streamVars storage stream].
  rewrite !len_truncate. repeat split; reflexivity.
Qed.

Lemma Forall_picked {X} (P : X -> Prop) (l : list X) (i : nat) (x : X) :
  Forall P l -> nth_error l i = Some x -> P x.
Proof.
  intros H. revert i. induction H as [|y l Hy _ IH]; intros [|i] Hi; try discriminate.
  - injection Hi as <-. assumption.
  - exact (IH i Hi).
Qed.

Lemma Forall_remove {X} (P : X -> Prop) (l : list X) (i : nat) :
  Forall P l -> Forall P (firstn i l ++ skipn (S i) l).
Proof.
  intros H. apply Forall_app. split.
  - apply Forall_take, H.
  - apply Forall_drop, H.
Qed.

(** C7, as the code has it. Whatever object a checkout hands out after a
    release (the one just released, another pooled one, or a fresh one),
    its scratch pools and stream variables have length zero and it holds
    no storage or stream engine; the pools may be nil. The pool keeps only
    such objects. *)
Theorem checkout_after_release (now now' : N) (ww : Work)
    (p : Pools RowBody StreamIdT Tag Field IndexT OptionBody Storage Engine)
    (pick : option nat) :
  Forall (@clean _ _ _ _ _ _ _ _) (writePointsWorkPool p) ->
  let released := PutWritePointsWork now now' ww p in
  clean (fst (GetWritePointsWork pick released))
  /\ Forall (@clean _ _ _ _ _ _ _ _)
            (writePointsWorkPool (snd (GetWritePointsWork pick released)))
  /\ fst (GetWritePointsWork (Some 0) released) = reset now now' ww.
Proof.
  intros Hpool released.
  assert (Hreleased : Forall (@clean _ _ _ _ _ _ _ _) (writePointsWorkPool released)).
  { cbn. constructor; [apply clean_reset|assumption]. }
  split; [|split; [|reflexivity]].
  - unfold GetWritePointsWork, pool_Get.
    destruct pick as [i|]; [|cbn; unfold clean; cbn; tauto].
    destruct (nth_error (writePointsWorkPool released) i) as [v|] eqn:Hv;
      [|cbn; unfold clean; cbn; tauto].
    cbn [fst]. eapply Forall_picked; eassumption.
  - unfold GetWritePointsWork, pool_Get.
    destruct pick as [i|]; [|assumption].
    destruct (nth_error (writePointsWorkPool released) i) as [v|]; [|assumption].
    cbn [snd writePointsWorkPool]. apply Forall_remove. assumption.
Qed.

(** * Further properties of the work object *)

(** ** What decodePoints leaves alone *)

Lemma decodeRows_keeps_request db rp ptId shard ids tail (w : World) :
  let ww' := work (snd (decodeRows db rp ptId shard ids tail w)) in
  reqBuf ww' = reqBuf (work w)
  /\ streamVars ww' = streamVars (work w)
  /\ storage ww' = storage (work w)
  /\ stream ww' = stream (work w)
  /\ lastResetTime ww' = lastResetTime (work w).
Proof.
  unfold decodeRows. run.
  split_cases; cbn; repeat split; reflexivity.
Qed.

(** X8. Whatever the request buffer holds and however the call ends (a
    return with or without error, or a panic), [decodePoints] leaves the
    request buffer, the stream variables, the borrowed storage and stream
    engine and the last reset time of the work object as they were; only
    the rows and the scratch pools change. *)
Theorem decodePoints_keeps_request (w : World) :
  let ww' := work (snd (decodePoints w)) in
  reqBuf ww' = reqBuf (work w)
  /\ streamVars ww' = streamVars (work w)
  /\ storage ww' = storage (work w)
  /\ stream ww' = stream (work w)
  /\ lastResetTime ww' = lastResetTime (work w).
Proof.
  unfold decodePoints. run.
  split_cases; try apply decodeRows_keeps_request;
    cbn; repeat split; reflexivity.
Qed.

(** ** decodePoints against the layout *)

Lemma from_None {A} (e sp : list A) (a : nat) :
  length e < a -> from (Slice e sp) a = None.
Proof.
  intros H. unfold from, len; cbn.
  destruct (Nat.leb_spec a (length e)); [lia|reflexivity].
Qed.

Ltac refute :=
  go; try (intros [= <- <-]; discriminate); try discriminate.

(** X6. [decodePoints] returns without error only on a request buffer that
    the frame layout accepts, and what it returns is then exactly what the
    layout reads from it: database, retention policy, partition, shard,
    stream-shard ids and payload. The length tests that are off by one
    never let a malformed frame through; such a frame ends in a panic or an
    error. *)
Theorem decodePoints_sound (w : World) (r : Decoded) (w' : World) :
  decodePoints w = (Done r, w') ->
  err r = None ->
  parseFrame (elems (reqBuf (work w))) = Some r.
Proof.
  intros Hdec Herr. revert Hdec.
  unfold decodePoints, parseFrame. destruct w as [ww tr]. go.
  destruct (reqBuf ww) as [|buf sp]; [refute; intros [= <- <-]; discriminate|].
  destruct buf as [|ty [|l1 rest]]; try (cbn; intros [= <- <-]; discriminate).
  go. not_less. go.
  destruct (Byte.eqb ty PackageTypeFast) eqn:Hty; [|refute]. go.
  rewrite from_Slice by (cbn [length]; lia). go.
  destruct (Nat.ltb_spec (S (length rest)) (Byte.to_nat l1)); [refute|]. go.
  rewrite from_Slice by (cbn [length]; lia). go.
  destruct (Nat.leb_spec (Byte.to_nat l1) (length rest)) as [H1|H1].
  2:{ rewrite (from_None rest sp) by lia.
      destruct (upto (Slice rest sp) (Byte.to_nat l1)); refute. }
  rewrite upto_Slice by assumption. go.
  rewrite from_Slice by assumption. go.
  destruct (skipn (Byte.to_nat l1) rest) as [|l2 rest2] eqn:Hrest2; [refute|]. go.
  destruct (Nat.ltb_spec (S (length rest2)) (Byte.to_nat l2)); [refute|]. go.
  rewrite from_Slice by (cbn [length]; lia). go.
  destruct (Nat.leb_spec (Byte.to_nat l2) (length rest2)) as [H2|H2].
  2:{ rewrite (from_None rest2 sp) by lia.
      destruct (upto (Slice rest2 sp) (Byte.to_nat l2)); refute. }
  rewrite upto_Slice by assumption. go.
  rewrite from_Slice by assumption. go.
  assert (Hlen : length (skipn (Byte.to_nat l2) rest2) = length rest2 - Byte.to_nat l2)
    by apply length_skipn.
  destruct (Nat.ltb_spec (length (skipn (Byte.to_nat l2) rest2)) 16) as [|H16]; [refute|]. go.
  destruct (Nat.leb_spec 16 (length rest2 - Byte.to_nat l2)); [|lia]. cbn [andb].
  rewrite from_Slice by lia. go.
  rewrite from_Slice by (rewrite length_skipn; lia). go.
  rewrite from_Slice by (rewrite !length_skipn; lia). go.
  set (fixed := skipn (Byte.to_nat l2) rest2) in *.
  rewrite !skipn_skipn. cbn [Nat.add].
  destruct (UnmarshalVarUint64s _ _) as [[ids payload] [e|]]; [refute|].
  intros Hrows. apply decodeRows_fields in Hrows.
  rewrite Herr in Hrows. subst r. reflexivity.
Qed.

(** X7. On every request buffer that the frame layout accepts (also one
    that no encoder of the layout would write), [decodePoints] ends as the
    row stage ends. When the row decoder returns on the payload and no
    stream variable is a nil pointer, it returns, and it returns the fields
    and the payload of the layout, whether or not the row decoder or the
    stream-variable check then reports an error. When the row decoder
    panics on the payload, it panics with the decoder's panic, having
    logged and counted nothing. *)
Theorem decodePoints_accepts (w : World) (h : Decoded) :
  parseFrame (elems (reqBuf (work w))) = Some h ->
  let decoded :=
    FastUnmarshalMultiRows (binaryRows h)
      (truncate (rows (work w))) (truncate (tagpools (work w)))
      (truncate (fieldpools (work w)))
      (truncate (truncateIndexLists (indexOptionpools (work w))))
      (truncate (indexKeypools (work w))) in
  (forall out,
      decoded = Done out ->
      Forall (fun v => v <> None) (elems (streamVars (work w))) ->
      exists e w',
        decodePoints w
        = (Done (mkDecoded (db h) (rp h) (ptId h) (shard h) (streamShardIdList h)
                           (binaryRows h) e), w'))
  /\ (forall reason,
        decoded = Panic reason ->
        fst (decodePoints w) = Panic reason
        /\ trace (snd (decodePoints w)) = trace w).
Proof.
  intros Hparse decoded. subst decoded. rewrite (decodePoints_parsed w Hparse). split.
  - intros out Hrows Hvars. eapply decodeRows_returns; eassumption.
  - intros reason Hrows. apply decodeRows_decoder_panics. assumption.
Qed.

(** ** Rows and stream variables *)

Lemma setStreamVars_spec (rs : list (Row RowBody StreamIdT))
    (vars : list (option (StreamVar StreamIdT))) (out : list (Row RowBody StreamIdT)) :
  setStreamVars rs vars = (out, None) ->
  length out = length rs
  /\ forall i row,
       nth_error rs i = Some row ->
       exists v, nth_error vars i = Some (Some v)
                 /\ nth_error out i = Some (mkRow (Body row) (Only v) (Id v)).
Proof.
  revert vars out. induction rs as [|r rs IH]; intros vars out H.
  - injection H as <-. split; [reflexivity|]. intros [|i] row; discriminate.
  - destruct vars as [|[v|] vars]; try discriminate. cbn in H.
    destruct (setStreamVars rs vars) as [out' stop] eqn:Hout.
    injection H as <- ->. destruct (IH _ _ Hout) as [Hlen Hnth].
    split; [cbn; now rewrite Hlen|].
    intros [|i] row Hrow.
    + injection Hrow as <-. exists v. split; reflexivity.
    + exact (Hnth i row Hrow).
Qed.

(** X9. When a frame with a non-empty stream-shard id list is decoded
    without error, the rows left in the work object are the decoder's rows,
    as many and in the same capacity, with row [i] carrying the [Only] flag
    and the [Id] of stream variable [i] and otherwise unchanged. *)
Theorem decodePoints_binds_stream_vars (w : World) (h : Decoded) rows' tags' fields' opts' keys'
    (r : Decoded) (w' : World) :
  parseFrame (elems (reqBuf (work w))) = Some h ->
  streamShardIdList h <> [] ->
  FastUnmarshalMultiRows (binaryRows h)
    (truncate (rows (work w))) (truncate (tagpools (work w)))
    (truncate (fieldpools (work w)))
    (truncate (truncateIndexLists (indexOptionpools (work w))))
    (truncate (indexKeypools (work w)))
  = Done (rows', tags', fields', opts', keys', None) ->
  decodePoints w = (Done r, w') ->
  err r = None ->
  len (rows (work w')) = len rows'
  /\ cap (rows (work w')) = cap rows'
  /\ forall i row,
       index rows' i = Some row ->
       exists v, index (streamVars (work w)) i = Some (Some v)
                 /\ index (rows (work w')) i = Some (mkRow (Body row) (Only v) (Id v)).
Proof.
  intros Hparse Hids Hrows Hdec Herr. revert Hdec.
  rewrite (decodePoints_parsed w Hparse). unfold decodeRows. run. rewrite Hrows. cbn.
  destruct (streamShardIdList h) as [|i0 ids]; [congruence|]. cbn.
  destruct (len rows' =? len (streamVars (work w))); cbn;
    [|intros [= <- <-]; discriminate].
  destruct (setStreamVars (elems rows') (elems (streamVars (work w)))) as [out stop] eqn:Hout.
  destruct stop as [reason|]; cbn; [discriminate|].
  intros [= <- <-]. cbn.
  destruct (setStreamVars_spec _ _ Hout) as [Hlen Hnth].
  destruct rows' as [|e sp]; cbn in *.
  - destruct out; [|discriminate]. repeat split. intros [|i] row; discriminate.
  - unfold len, cap, index; cbn. repeat split; [assumption|now rewrite Hlen|assumption].
Qed.

(** ** What the entry points do with the decode *)

(** X10. When the frame is accepted but the row decoder rejects the
    payload, both entry points return the decoder's error wrapped in the
    unmarshal-points kind, [WriteStreamPoints] reports [false], and neither
    the storage engine, the replica nor the stream engine is called. *)
Theorem row_decoder_error (w : World) (h : Decoded) rows' tags' fields' opts' keys'
    (e : error) :
  parseFrame (elems (reqBuf (work w))) = Some h ->
  FastUnmarshalMultiRows (binaryRows h)
    (truncate (rows (work w))) (truncate (tagpools (work w)))
    (truncate (fieldpools (work w)))
    (truncate (truncateIndexLists (indexOptionpools (work w))))
    (truncate (indexKeypools (work w)))
  = Done (rows', tags', fields', opts', keys', Some e) ->
  let wrapped := errno_NewError ErrUnmarshalPoints (Some e) in
  fst (WritePoints w) = Done (Some wrapped)
  /\ calls isDownstream (trace (snd (WritePoints w))) = calls isDownstream (trace w)
  /\ fst (WriteStreamPoints w) = Done (Some wrapped, false)
  /\ calls isDownstream (trace (snd (WriteStreamPoints w))) = calls isDownstream (trace w).
Proof.
  intros Hparse Hrows wrapped.
  unfold WritePoints, WriteStreamPoints. run.
  rewrite (decodePoints_parsed w Hparse). unfold decodeRows. run. rewrite Hrows. cbn.
  repeat split; count.
Qed.

(** X11. After a decode without error both entry points call the storage
    engine's [WriteRows] exactly once, directly after the decode, with the
    work object's own storage reference, the database, retention policy,
    partition and shard that the decode returned, the rows it left in the
    work object and the raw payload. After a failed decode, or a panic,
    they never call it. *)
Theorem storage_write_after_decode (w : World) :
  match decodePoints w with
  | (Done r, w1) =>
      match err r with
      | None =>
          let write := StorageWriteRows (storage (work w)) (db r) (rp r) (ptId r) (shard r)
                                        (rows (work w1)) (binaryRows r) in
          (exists rest,
              trace (snd (WritePoints w)) = (trace w1 ++ write :: rest)%list
              /\ calls isStorageWriteRows rest = 0)
          /\ (exists rest,
                 trace (snd (WriteStreamPoints w)) = (trace w1 ++ write :: rest)%list
                 /\ calls isStorageWriteRows rest = 0)
      | Some _ =>
          calls isStorageWriteRows (trace (snd (WritePoints w)))
          = calls isStorageWriteRows (trace w)
          /\ calls isStorageWriteRows (trace (snd (WriteStreamPoints w)))
             = calls isStorageWriteRows (trace w)
      end
  | (Panic _, _) =>
      calls isStorageWriteRows (trace (snd (WritePoints w)))
      = calls isStorageWriteRows (trace w)
      /\ calls isStorageWriteRows (trace (snd (WriteStreamPoints w)))
         = calls isStorageWriteRows (trace w)
  end.
Proof.
  pose proof (decodePoints_ends w) as Hends.
  unfold WritePoints, WriteStreamPoints. run.
  destruct (decodePoints w) as [[r|reason] w1]; cbn.
  - destruct Hends as (<- & _ & Hends).
    destruct (err r) as [e|]; cbn.
    + destruct Hends as (ev & Hlog & ->).
      destruct ev; try discriminate; split; count.
    + split.
      * destruct (storage_WriteRows _ _ _ _ _ _ _) as [[e|]|reason]; cbn;
          [|destruct IsReplication; cbn;
            try destruct (storage_WriteRowsToSlave _ _ _ _ _ _); cbn|];
          rewrite <- ?app_assoc; cbn; eexists; (split; [reflexivity|]); reflexivity.
      * destruct (storage_WriteRows _ _ _ _ _ _ _) as [[e|]|reason];
          destruct (stream (work w1)) as [eng|];
          destruct (length (streamShardIdList r)) as [|n];
          cbn;
          try destruct (S n mod 2 =? 0);
          cbn;
          rewrite <- ?app_assoc; cbn; eexists; (split; [reflexivity|]); reflexivity.
  - rewrite Hends. split; reflexivity.
Qed.

(** X12. [WritePoints] returns nil exactly when the decode returns no
    error, the primary write returns no error, and replication is either
    disabled or the replica write returns no error. *)
Theorem WritePoints_nil (w : World) :
  fst (WritePoints w) = Done None
  <-> exists r w1,
        decodePoints w = (Done r, w1)
        /\ err r = None
        /\ storage_WriteRows (storage (work w1)) (db r) (rp r) (ptId r) (shard r)
                             (rows (work w1)) (binaryRows r) = Done None
        /\ (IsReplication = false
            \/ storage_WriteRowsToSlave (storage (work w1)) (rows (work w1))
                                        (db r) (rp r) (ptId r) (shard r) = Done None).
Proof.
  unfold WritePoints. run.
  destruct (decodePoints w) as [[r|reason] w1]; cbn.
  - destruct (err r) as [e|] eqn:He; cbn.
    + split; [discriminate|]. intros (r' & w1' & [= <- <-] & He' & _). congruence.
    + destruct (storage_WriteRows _ _ _ _ _ _ _) as [[e|]|reason] eqn:Hprimary; cbn.
      * split; [discriminate|].
        intros (r' & w1' & [= <- <-] & _ & Hp & _). congruence.
      * destruct IsReplication; cbn.
        -- destruct (storage_WriteRowsToSlave _ _ _ _ _ _) as [e|reason] eqn:Hreplica; cbn.
           ++ split.
              ** intros [= ->]. exists r, w1. repeat split; auto.
              ** intros (r' & w1' & [= <- <-] & _ & _ & [Hoff|Hrep]);
                   [discriminate|]. rewrite Hreplica in Hrep. exact Hrep.
           ++ split; [discriminate|].
              intros (r' & w1' & [= <- <-] & _ & _ & [Hoff|Hrep]);
                [discriminate|]. rewrite Hreplica in Hrep. discriminate.
        -- split; [|reflexivity]. intros _. exists r, w1. repeat split; auto.
      * split; [discriminate|].
        intros (r' & w1' & [= <- <-] & _ & Hp & _). congruence.
  - split; [discriminate|]. intros (r' & w1' & Hd & _). discriminate.
Qed.

(** X13. [WriteStreamPoints] never calls the replica write, whatever the
    replication mode and however the call ends. *)
Theorem WriteStreamPoints_never_replicates (w : World) :
  calls isStorageWriteRowsToSlave (trace (snd (WriteStreamPoints w)))
  = calls isStorageWriteRowsToSlave (trace w).
Proof.
  pose proof (decodePoints_ends w) as Hends.
  unfold WriteStreamPoints. run.
  destruct (decodePoints w) as [[r|reason] w1]; cbn.
  - destruct Hends as (_ & _ & Hends).
    destruct (err r) as [e|]; cbn.
    + destruct Hends as (ev & Hlog & ->). destruct ev; try discriminate; count.
    + rewrite Hends.
      destruct (storage_WriteRows _ _ _ _ _ _ _) as [[e|]|reason];
        destruct (stream (work w1)) as [eng|];
        destruct (length (streamShardIdList r)) as [|n];
        cbn;
        try destruct (S n mod 2 =? 0);
        cbn; count.
  - now rewrite Hends.
Qed.

(** X14. With replication disabled and no stream engine attached,
    [WriteStreamPoints] is [WritePoints] with [false] added to the result:
    the same error, the same work object, the same calls in the same
    order. *)
Theorem WriteStreamPoints_as_WritePoints (w : World) :
  IsReplication = false ->
  stream (work w) = None ->
  WriteStreamPoints w
  = (match fst (WritePoints w) with
     | Done e => Done (e, false)
     | Panic reason => Panic reason
     end, snd (WritePoints w)).
Proof.
  intros Hrep Hstream.
  pose proof (decodePoints_ends w) as Hends.
  unfold WriteStreamPoints, WritePoints. run. rewrite Hrep.
  destruct (decodePoints w) as [[r|reason] w1]; cbn; [|reflexivity].
  destruct Hends as (_ & Hs & _).
  destruct (err r) as [e|]; cbn; [reflexivity|].
  destruct (storage_WriteRows _ _ _ _ _ _ _) as [[e|]|reason]; cbn;
    rewrite ?Hs, ?Hstream; reflexivity.
Qed.

(** X26. The order of the calls. After a decode and a primary write
    without error, [WritePoints] with replication enabled has made exactly
    three calls: the counter add, the storage write, then the replica
    write with the same rows and fields; and [WriteStreamPoints] with a
    stream engine attached and a non-empty list of even length has made
    the counter add, the storage write, then the stream engine's
    [WriteRows] with the same fields and the map built from the list. *)
Theorem dispatch_order (w : World) (r : Decoded) (w1 : World) :
  decodePoints w = (Done r, w1) ->
  err r = None ->
  storage_WriteRows (storage (work w1)) (db r) (rp r) (ptId r) (shard r)
                    (rows (work w1)) (binaryRows r) = Done None ->
  let write := StorageWriteRows (storage (work w1)) (db r) (rp r) (ptId r) (shard r)
                                (rows (work w1)) (binaryRows r) in
  (IsReplication = true ->
   trace (snd (WritePoints w))
   = (trace w ++ [AddWriteUnmarshalNs sinceNs; write;
                  StorageWriteRowsToSlave (storage (work w1)) (rows (work w1))
                                          (db r) (rp r) (ptId r) (shard r)])%list)
  /\ (forall eng,
        stream (work w) = Some eng ->
        streamShardIdList r <> [] ->
        length (streamShardIdList r) mod 2 = 0 ->
        trace (snd (WriteStreamPoints w))
        = (trace w ++ [AddWriteUnmarshalNs sinceNs; write;
                       StreamWriteRows eng (db r) (rp r) (ptId r) (shard r)
                         (fillStreamIdDstShardIdMap (streamShardIdList r) ∅)])%list).
Proof.
  intros Hdec Herr Hprimary write. subst write.
  pose proof (decodePoints_ends w) as Hends. rewrite Hdec, Herr in Hends.
  destruct Hends as (_ & Hstream & Hends).
  unfold WritePoints, WriteStreamPoints. run. rewrite Hdec. cbn.
  rewrite Herr, Hprimary. cbn. split.
  - intros ->. cbn.
    destruct (storage_WriteRowsToSlave _ _ _ _ _ _); cbn;
      rewrite Hends, <- !app_assoc; reflexivity.
  - intros eng Heng Hids Heven. rewrite Hstream, Heng. cbn.
    destruct (streamShardIdList r) as [|i ids] eqn:Hlist; [congruence|].
    cbn [length] in *. rewrite Heven. cbn.
    rewrite Hends, <- !app_assoc. reflexivity.
Qed.

(** ** The stream map *)

Lemma fill_pairs_cons (s d : N) (ps : list (N * N)) (m : gmap N N) :
  fillStreamIdDstShardIdMap (flat_map (fun p => [fst p; snd p]) ((s, d) :: ps)) m
  = fillStreamIdDstShardIdMap (flat_map (fun p => [fst p; snd p]) ps) (<[s := d]> m).
Proof. reflexivity. Qed.

Lemma fill_pairs_other (ps : list (N * N)) (m : gmap N N) (k : N) :
  ~ In k (map fst ps) ->
  fillStreamIdDstShardIdMap (flat_map (fun p => [fst p; snd p]) ps) m !! k = m !! k.
Proof.
  revert m. induction ps as [|[s d] ps IH]; intros m Hk; [reflexivity|].
  rewrite fill_pairs_cons, IH by (cbn in Hk; tauto).
  apply lookup_insert_ne. cbn in Hk. tauto.
Qed.

(** X15. For a stream-shard id list that holds the pairs [ps] in order,
    the map handed to the stream engine sends every stream id to the shard
    id of its last pair (a later pair for the same stream id replaces an
    earlier one), and holds nothing for an id that is no pair's stream id. *)
Theorem fillStreamIdDstShardIdMap_last_pair (ps : list (N * N)) :
  let m := fillStreamIdDstShardIdMap (flat_map (fun p => [fst p; snd p]) ps) ∅ in
  (forall before s d after,
      ps = (before ++ (s, d) :: after)%list ->
      ~ In s (map fst after) ->
      m !! s = Some d)
  /\ (forall k, ~ In k (map fst ps) -> m !! k = None).
Proof.
  cbn zeta. split.
  - intros before s d after -> Hlast.
    generalize (∅ : gmap N N) as m.
    induction before as [|[s' d'] before IH]; intros m.
    + cbn [app]. rewrite fill_pairs_cons, fill_pairs_other by assumption.
      apply lookup_insert_eq.
    + cbn [app]. rewrite fill_pairs_cons. apply IH.
  - intros k Hk. rewrite fill_pairs_other by assumption. apply lookup_empty.
Qed.

(** ** More on reset and the pool *)

Lemma truncate_truncate {A} (s : slice A) : truncate (truncate s) = truncate s.
Proof. destruct s; reflexivity. Qed.

(** X16. [reset] is idempotent: releasing a work object a second time
    without a request in between changes nothing, at whatever times the two
    releases happen. An emptied buffer never asks for a shrink. *)
Theorem reset_idempotent (now0 now0' now1 now1' : N) (ww : Work) :
  reset now1 now1' (reset now0 now0' ww) = reset now0 now0' ww.
Proof.
  unfold reset at 1.
  assert (Hreq : len (reqBuf (reset now0 now0' ww)) = 0) by apply len_truncate.
  assert (Hrows : len (rows (reset now0 now0' ww)) = 0) by apply len_truncate.
  rewrite Hreq, Hrows. cbn [Nat.mul].
  replace (cap (reqBuf (reset now0 now0' ww)) <? 0) with false
    by (symmetry; apply Nat.ltb_ge; lia).
  replace (cap (rows (reset now0 now0' ww)) <? 0) with false
    by (symmetry; apply Nat.ltb_ge; lia).
  cbn [orb andb]. unfold reset.
  cbn [reqBuf rows streamVars tagpools fieldpools indexKeypools indexOptionpools
              lastResetTime].
  now rewrite !truncate_truncate.
Qed.

(** X17. [reset] never gives up the memory of the tag, field, index-key
    and index-option pools or of the stream variables: whatever their size
    and however long ago the last reset was, each keeps its capacity (and
    stays nil if it was nil). The shrink is for the request buffer and the
    rows only. *)
Theorem reset_keeps_scratch_capacity (now now' : N) (ww : Work) :
  let ww' := reset now now' ww in
  (cap (tagpools ww') = cap (tagpools ww) /\ is_nil (tagpools ww') = is_nil (tagpools ww))
  /\ (cap (fieldpools ww') = cap (fieldpools ww)
      /\ is_nil (fieldpools ww') = is_nil (fieldpools ww))
  /\ (cap (indexKeypools ww') = cap (indexKeypools ww)
      /\ is_nil (indexKeypools ww') = is_nil (indexKeypools ww))
  /\ (cap (indexOptionpools ww') = cap (indexOptionpools ww)
      /\ is_nil (indexOptionpools ww') = is_nil (indexOptionpools ww))
  /\ (cap (streamVars ww') = cap (streamVars ww)
      /\ is_nil (streamVars ww') = is_nil (streamVars ww)).
Proof.
  assert (Hnil : forall A (s : slice A), is_nil (truncate s) = is_nil s)
    by (intros A [|? ?]; reflexivity).
  cbn zeta. unfold reset.
  cbn [tagpools fieldpools indexKeypools indexOptionpools streamVars].
  rewrite !cap_truncate, !Hnil. repeat split; reflexivity.
Qed.

End Properties.

(** * The server shell *)

Section ServerProperties.

Context {InsertServer SelectServer OpenError : Type}.
Context {env : Server.Env InsertServer SelectServer OpenError}.

Local Abbreviation Srv := (Server.Server InsertServer SelectServer).

(** X19. [Open] opens the insert listener first and the select listener
    only when the insert listener opened; it returns nil exactly when both
    opened, and otherwise the error of the listener that failed, worded
    with that listener's address. The server keeps each listener as its
    [Open] call left it, and a select listener that was not reached as it
    was. *)
Theorem Open_listeners (s : Srv) :
  let result := fst (fst (Server.Open s)) in
  let after := snd (fst (Server.Open s)) in
  let tr := snd (Server.Open s) in
  let ins := snd (Server.insert_Open (Server.insertServer s)) in
  let sel := snd (Server.select_Open (Server.selectServer s)) in
  let insAfter := fst (Server.insert_Open (Server.insertServer s)) in
  let selAfter := fst (Server.select_Open (Server.selectServer s)) in
  (result = None <-> ins = None /\ sel = None)
  /\ (In (Server.SelectOpen (Server.selectServer s)) tr <-> ins = None)
  /\ (forall e, ins = Some e ->
        result = Some (Server.cannotCreate (Server.insert_addr insAfter) e)
        /\ tr = [Server.InsertOpen (Server.insertServer s)]
        /\ after = Server.mkServer (Server.closed s) (Server.selectServer s) insAfter)
  /\ (forall e, ins = None -> sel = Some e ->
        result = Some (Server.cannotCreate (Server.select_addr selAfter) e)
        /\ tr = [Server.InsertOpen (Server.insertServer s);
                 Server.SelectOpen (Server.selectServer s)])
  /\ (ins = None -> after = Server.mkServer (Server.closed s) selAfter insAfter).
Proof.
  cbn zeta. unfold Server.Open.
  destruct (Server.insert_Open (Server.insertServer s)) as [insAfter [e|]]; cbn;
    [|destruct (Server.select_Open (Server.selectServer s)) as [selAfter [e|]]]; cbn.
  - split; [split; [discriminate|intros [H _]; discriminate]|].
    split; [split; [intros [H|[]]; discriminate|discriminate]|].
    split; [intros e' [= <-]; repeat split; reflexivity|].
    split; discriminate.
  - split; [split; [discriminate|intros [_ H]; discriminate]|].
    split; [split; [reflexivity|auto]|].
    split; [discriminate|].
    split; [intros e' _ [= <-]; split; reflexivity|reflexivity].
  - split; [split; [auto|reflexivity]|].
    split; [split; [reflexivity|auto]|].
    split; [discriminate|].
    split; [discriminate|reflexivity].
Qed.

Lemma MustClose_returns (s : Srv) (sel : SelectServer) (ins : InsertServer) :
  Server.select_Close (Server.selectServer s) = Done sel ->
  Server.insert_Close (Server.insertServer s) = Done ins ->
  Server.MustClose s
  = (Done (Server.mkServer true sel ins),
     (if Server.closed s then [] else [Server.CloseChan])
     ++ [Server.SelectClose (Server.selectServer s);
         Server.InsertClose (Server.insertServer s)])%list.
Proof.
  destruct s as [[|] x y]; unfold Server.MustClose; cbn; intros -> ->; reflexivity.
Qed.

Lemma MustCloseTimes_returns (okS : SelectServer -> Prop) (okI : InsertServer -> Prop) :
  (forall x, okS x -> exists x', Server.select_Close x = Done x' /\ okS x') ->
  (forall y, okI y -> exists y', Server.insert_Close y = Done y' /\ okI y') ->
  forall (n : nat) (s : Srv),
    okS (Server.selectServer s) -> okI (Server.insertServer s) ->
    let result := Server.MustCloseTimes (S n) s in
    let calls := filter (fun e => negb (Server.isCloseChan e)) (snd result) in
    (exists s',
        fst result = Done s' /\ Server.closed s' = true
        /\ okS (Server.selectServer s') /\ okI (Server.insertServer s'))
    /\ length (filter Server.isCloseChan (snd result)) = (if Server.closed s then 0 else 1)
    /\ map Server.isSelectClose calls = concat (repeat [true; false] (S n))
    /\ map Server.isInsertClose calls = concat (repeat [false; true] (S n)).
Proof.
  intros HS HI. cbn zeta. induction n as [|n IH]; intros s Hs Hi;
    destruct (HS _ Hs) as (x' & Hx & Hx'); destruct (HI _ Hi) as (y' & Hy & Hy').
  - cbn [Server.MustCloseTimes]. rewrite (MustClose_returns s Hx Hy). cbn [fst snd].
    rewrite app_nil_r. split; [eexists; repeat split; eauto|].
    destruct (Server.closed s); cbn; repeat split; reflexivity.
  - change (Server.MustCloseTimes (S (S n)) s)
      with (match Server.MustClose s with
            | (Done s', tr) =>
                let '(o, tr') := Server.MustCloseTimes (S n) s' in (o, (tr ++ tr')%list)
            | (Panic reason, tr) => (Panic reason, tr)
            end).
    rewrite (MustClose_returns s Hx Hy).
    specialize (IH (Server.mkServer true x' y') Hx' Hy').
    destruct (Server.MustCloseTimes (S n) _) as [o tr'].
    cbn [fst snd Server.closed] in *.
    destruct IH as ((s' & -> & Hc & Hs' & Hi') & Hchan & Hsel & Hins).
    split; [exists s'; auto|].
    rewrite !filter_app, !length_app, !map_app, Hsel, Hins, Hchan.
    destruct (Server.closed s); cbn; repeat split; reflexivity.
Qed.

(** X20. As long as the two [Close] calls return (on listeners that stay
    fit for closing, as opened ones do), [MustClose] may be called any
    number of times: no call panics, the [closed] channel is closed by the
    first call that finds it open and never again, every call closes the
    select server and then the insert server, and the server ends up
    stopping. When [selectServer.Close] panics (as on a listener that was
    never opened), [MustClose] panics with it after the channel is closed,
    and the insert server is never closed; when [insertServer.Close]
    panics, [MustClose] panics after both calls. *)
Theorem MustCloseTimes_closes_once (s : Srv) :
  (forall (okS : SelectServer -> Prop) (okI : InsertServer -> Prop) (n : nat),
      (forall x, okS x -> exists x', Server.select_Close x = Done x' /\ okS x') ->
      (forall y, okI y -> exists y', Server.insert_Close y = Done y' /\ okI y') ->
      okS (Server.selectServer s) -> okI (Server.insertServer s) ->
      let result := Server.MustCloseTimes (S n) s in
      let calls := filter (fun e => negb (Server.isCloseChan e)) (snd result) in
      (exists s',
          fst result = Done s' /\ Server.closed s' = true
          /\ okS (Server.selectServer s') /\ okI (Server.insertServer s'))
      /\ length (filter Server.isCloseChan (snd result))
         = (if Server.closed s then 0 else 1)
      /\ map Server.isSelectClose calls = concat (repeat [true; false] (S n))
      /\ map Server.isInsertClose calls = concat (repeat [false; true] (S n)))
  /\ (forall reason,
        Server.select_Close (Server.selectServer s) = Panic reason ->
        Server.MustClose s
        = (Panic reason,
           (if Server.closed s then [] else [Server.CloseChan])
           ++ [Server.SelectClose (Server.selectServer s)])%list)
  /\ (forall sel reason,
        Server.select_Close (Server.selectServer s) = Done sel ->
        Server.insert_Close (Server.insertServer s) = Panic reason ->
        Server.MustClose s
        = (Panic reason,
           (if Server.closed s then [] else [Server.CloseChan])
           ++ [Server.SelectClose (Server.selectServer s);
               Server.InsertClose (Server.insertServer s)])%list).
Proof.
  split; [|split].
  - intros okS okI n HS HI. apply MustCloseTimes_returns; assumption.
  - intros reason Hsel. destruct s as [[|] x y]; unfold Server.MustClose; cbn in *;
      rewrite Hsel; reflexivity.
  - intros sel reason Hsel Hins. destruct s as [[|] x y]; unfold Server.MustClose; cbn in *;
      rewrite Hsel, Hins; reflexivity.
Qed.

End ServerProperties.

(** * The logger package *)

Lemma length_append (s t : string) :
  String.length (s ++ t) = String.length s + String.length t.
Proof.
  induction s as [|c s IH]; [reflexivity|].
  change (S (String.length (s ++ t)) = S (String.length s + String.length t)).
  now rewrite IH.
Qed.

Lemma append_inj_l (s1 s2 t : string) : s1 ++ t = s2 ++ t -> s1 = s2.
Proof.
  revert s2. induction s1 as [|c1 s1 IH]; intros [|c2 s2] H.
  - reflexivity.
  - apply (f_equal String.length) in H.
    change (String.length t = S (String.length (s2 ++ t))) in H.
    rewrite length_append in H. lia.
  - apply (f_equal String.length) in H.
    change (S (String.length (s1 ++ t)) = String.length t) in H.
    rewrite length_append in H. lia.
  - injection H as -> H. f_equal. exact (IH _ H).
Qed.

Section LoggerProperties.

Context {Conf Hook ZapLogger Handler : Type}.
Context {env : Logger.Env Conf Hook ZapLogger}.

Local Abbreviation Globals := (Logger.Globals Hook ZapLogger Handler).

Lemma rewriteLevel_cases (level : Z) :
  ((Logger.DebugLevel <= level <= Logger.FatalLevel)%Z /\ Logger.rewriteLevel level = level)
  \/ (~ (Logger.DebugLevel <= level <= Logger.FatalLevel)%Z
      /\ Logger.rewriteLevel level = Logger.InfoLevel).
Proof.
  unfold Logger.rewriteLevel.
  destruct (Z.ltb_spec level Logger.DebugLevel);
    destruct (Z.ltb_spec Logger.FatalLevel level); cbn [orb];
    [right|right|right|left]; split; try reflexivity; lia.
Qed.

(** X21. With the level constants in their order (debug at most info at
    most fatal), [rewriteLevel] always answers a level between debug and
    fatal: a level in that range is kept, any other becomes info; and
    rewriting twice is rewriting once. *)
Theorem rewriteLevel_valid (level : Z) :
  (Logger.DebugLevel <= Logger.InfoLevel <= Logger.FatalLevel)%Z ->
  (Logger.DebugLevel <= Logger.rewriteLevel level <= Logger.FatalLevel)%Z
  /\ ((Logger.DebugLevel <= level <= Logger.FatalLevel)%Z -> Logger.rewriteLevel level = level)
  /\ (~ (Logger.DebugLevel <= level <= Logger.FatalLevel)%Z ->
      Logger.rewriteLevel level = Logger.InfoLevel)
  /\ Logger.rewriteLevel (Logger.rewriteLevel level) = Logger.rewriteLevel level.
Proof.
  intros Horder.
  destruct (rewriteLevel_cases level) as [[Hin Heq]|[Hout Heq]]; rewrite Heq.
  - destruct (rewriteLevel_cases level) as [[_ Heq']|[Hbad _]]; [|tauto].
    split; [lia|]. split; [auto|]. split; [tauto|exact Heq'].
  - destruct (rewriteLevel_cases Logger.InfoLevel) as [[_ Hinfo]|[Hbad _]]; [|lia].
    split; [lia|]. split; [tauto|]. split; [auto|exact Hinfo].
Qed.

(** X22. Whatever level is configured, the normal file takes fatal
    entries; a configured level outside the debug-to-fatal range makes it
    take info and above; and whenever the level in force is at most error,
    every entry that the error file takes is also taken by the normal
    file. *)
Theorem level_enablers (confLevel lvl : Z) :
  (Logger.DebugLevel <= Logger.InfoLevel <= Logger.ErrorLevel)%Z ->
  (Logger.ErrorLevel <= Logger.FatalLevel)%Z ->
  Logger.levelNormal confLevel Logger.FatalLevel = true
  /\ (~ (Logger.DebugLevel <= confLevel <= Logger.FatalLevel)%Z ->
      Logger.levelNormal confLevel lvl = (Logger.InfoLevel <=? lvl)%Z)
  /\ ((Logger.rewriteLevel confLevel <= Logger.ErrorLevel)%Z ->
      Logger.levelError lvl = true -> Logger.levelNormal confLevel lvl = true).
Proof.
  intros Horder Hfatal.
  unfold Logger.levelNormal, Logger.levelError. cbn zeta.
  destruct (rewriteLevel_cases confLevel) as [[Hin Heq]|[Hout Heq]]; rewrite Heq;
    repeat split.
  - apply Z.leb_le. lia.
  - tauto.
  - intros Hle Herr. apply Z.leb_le in Herr. apply Z.leb_le. lia.
  - apply Z.leb_le. lia.
  - intros Hle Herr. apply Z.leb_le in Herr. apply Z.leb_le. lia.
Qed.

(** X23. The error file never has the name of the normal file, and two
    applications get two different error file names. *)
Theorem makeErrFileName_distinct (f g : string) :
  Logger.makeErrFileName f <> f
  /\ (Logger.makeErrFileName f = Logger.makeErrFileName g -> f = g).
Proof.
  unfold Logger.makeErrFileName. split.
  - intros H. apply (f_equal String.length) in H. rewrite length_append in H.
    cbn in H. lia.
  - apply append_inj_l.
Qed.

Lemma InitLogger_hooks (conf : Conf) (g : Globals) :
  Logger.hooks (fst (Logger.InitLogger conf g)) = (Logger.hooks g ++ Logger.hooksOf conf)%list
  /\ filter Logger.isHookClose (snd (Logger.InitLogger conf g)) = []
  /\ exists l, Logger.logger (fst (Logger.InitLogger conf g)) = Some l.
Proof.
  unfold Logger.InitLogger, Logger.getLogger, Logger.notify. cbn.
  destruct (Logger.initHandler g); cbn; eauto.
Qed.

Lemma InitLoggers_hooks (confs : list Conf) (g : Globals) :
  Logger.hooks (fst (Logger.InitLoggers confs g))
  = (Logger.hooks g ++ flat_map Logger.hooksOf confs)%list
  /\ filter Logger.isHookClose (snd (Logger.InitLoggers confs g)) = [].
Proof.
  revert g. induction confs as [|conf confs IH]; intros g.
  - cbn. now rewrite app_nil_r.
  - cbn [Logger.InitLoggers flat_map].
    destruct (InitLogger_hooks conf g) as (Hh & Hc & _).
    destruct (Logger.InitLogger conf g) as [g1 tr1]. cbn [fst snd] in *.
    destruct (IH g1) as (Hh' & Hc').
    destruct (Logger.InitLoggers confs g1) as [g2 tr2]. cbn [fst snd] in *.
    rewrite Hh', Hh, <- app_assoc, filter_app, Hc, Hc'. split; reflexivity.
Qed.

(** X24. Initialising the logger again never closes the file hooks of the
    logger it replaces: after any number of [InitLogger] calls all hooks
    opened so far (two per call, normal then error) are still held, in the
    order they were opened. [CloseLogger] then syncs the current logger,
    closes every one of them exactly once in that order and forgets them;
    a second [CloseLogger] only syncs. *)
Theorem hooks_closed_once (conf : Conf) (confs : list Conf) (g : Globals) :
  let g1 := fst (Logger.InitLoggers (conf :: confs) g) in
  let opened := (Logger.hooks g ++ flat_map Logger.hooksOf (conf :: confs))%list in
  Logger.hooks g1 = opened
  /\ filter Logger.isHookClose (snd (Logger.InitLoggers (conf :: confs) g)) = []
  /\ exists l g2,
       Logger.logger g1 = Some l
       /\ Logger.CloseLogger g1 = (Done g2, Logger.Sync l :: map Logger.HookClose opened)
       /\ Logger.hooks g2 = []
       /\ Logger.CloseLogger g2 = (Done g2, [Logger.Sync l]).
Proof.
  cbn zeta.
  destruct (InitLoggers_hooks (conf :: confs) g) as (Hh & Hc).
  split; [assumption|]. split; [assumption|].
  assert (Hl : exists l, Logger.logger (fst (Logger.InitLoggers (conf :: confs) g)) = Some l).
  { clear Hh Hc. revert conf g. induction confs as [|conf' confs IH]; intros conf g.
    - cbn [Logger.InitLoggers].
      destruct (InitLogger_hooks conf g) as (_ & _ & l & Hl).
      destruct (Logger.InitLogger conf g) as [g1 tr1]. cbn in *. eauto.
    - change (Logger.InitLoggers (conf :: conf' :: confs) g)
        with (let '(g, tr) := Logger.InitLogger conf g in
              let '(g, tr') := Logger.InitLoggers (conf' :: confs) g in
              (g, (tr ++ tr')%list)).
      destruct (Logger.InitLogger conf g) as [g1 tr1].
      specialize (IH conf' g1).
      destruct (Logger.InitLoggers (conf' :: confs) g1) as [g2 tr2]. exact IH. }
  destruct Hl as [l Hl].
  destruct (fst (Logger.InitLoggers (conf :: confs) g)) as [lg hs ih lv] eqn:Hg1.
  cbn [Logger.logger Logger.hooks] in *. subst lg.
  exists l, (Logger.mkGlobals (Some l) [] ih lv).
  split; [reflexivity|].
  unfold Logger.CloseLogger, Logger.closeHooks. cbn [Logger.logger Logger.hooks length].
  assert (Hlen : (length hs =? 0) = false).
  { apply Nat.eqb_neq. rewrite Hh, length_app. cbn. lia. }
  rewrite Hlen, Hh. cbn. repeat split; reflexivity.
Qed.

(** X25. [SetLogger] puts a logger in place of the current one without
    closing or forgetting the hooks that [InitLogger] opened: [GetLogger]
    then returns the new logger, the init handler (if any) is called once
    with it, and a following [CloseLogger] syncs the new logger and closes
    the hooks of the old one. *)
Theorem SetLogger_keeps_hooks (conf : Conf) (l : ZapLogger) (g : Globals) :
  let g1 := fst (Logger.InitLogger conf g) in
  let g2 := fst (Logger.SetLogger (Some l) g1) in
  let opened := (Logger.hooks g ++ Logger.hooksOf conf)%list in
  Logger.GetLogger g2 = Some l
  /\ Logger.hooks g2 = opened
  /\ snd (Logger.SetLogger (Some l) g1)
     = match Logger.initHandler g with
       | Some h => [Logger.CallInitHandler h (Some l)]
       | None => []
       end
  /\ snd (Logger.CloseLogger g2) = Logger.Sync l :: map Logger.HookClose opened
  /\ exists g3, fst (Logger.CloseLogger g2) = Done g3 /\ Logger.hooks g3 = [].
Proof.
  cbn zeta. destruct (InitLogger_hooks conf g) as (Hh & _ & _).
  unfold Logger.SetLogger, Logger.GetLogger, Logger.CloseLogger, Logger.closeHooks,
    Logger.notify.
  cbn [fst snd Logger.logger Logger.hooks Logger.initHandler].
  assert (Hlen : (length (Logger.hooks (fst (Logger.InitLogger conf g))) =? 0) = false).
  { apply Nat.eqb_neq. rewrite Hh, length_app. cbn. lia. }
  rewrite Hlen, Hh. cbn [fst snd Logger.hooks].
  repeat split; try reflexivity; eauto.
Qed.

End LoggerProperties.

(** * The reference encoding obeys the laws *)

Lemma to_N_byte_of_N (n : N) : Byte.to_N (byte_of_N n) = (n mod 256)%N.
Proof.
  unfold byte_of_N.
  assert (H : (n mod 256 < 256)%N) by (apply N.mod_lt; discriminate).
  destruct (Byte.of_N (n mod 256)) as [b|] eqn:E.
  - now apply Byte.to_of_N in E.
  - apply Byte.of_N_None_iff in E. lia.
Qed.

Lemma length_bigEndian (width : nat) (v : N) : length (Reference.bigEndian width v) = width.
Proof. induction width as [|w IH]; cbn; [reflexivity|now rewrite IH]. Qed.

Lemma fold_bigEndian (width : nat) (v acc : N) :
  fold_left (fun a b => (a * 256 + Byte.to_N b)%N) (Reference.bigEndian width v) acc
  = (acc * 256 ^ N.of_nat width + v mod 256 ^ N.of_nat width)%N.
Proof.
  revert acc. induction width as [|w IH]; intros acc.
  - cbn. rewrite N.mod_1_r. lia.
  - cbn [Reference.bigEndian fold_left]. rewrite IH, to_N_byte_of_N.
    rewrite Nat2N.inj_succ, N.pow_succ_r'.
    rewrite (N.mul_comm 256 (256 ^ N.of_nat w)), N.Div0.mod_mul_r. ring.
Qed.

Lemma ofBigEndian_bigEndian (width : nat) (v : N) (rest : list byte) :
  (v < 256 ^ N.of_nat width)%N ->
  Reference.ofBigEndian width (Reference.bigEndian width v ++ rest) = v.
Proof.
  intros H. unfold Reference.ofBigEndian.
  rewrite firstn_app, length_bigEndian, Nat.sub_diag, firstn_O, app_nil_r.
  rewrite firstn_all2 by (rewrite length_bigEndian; lia).
  rewrite fold_bigEndian, N.mod_small by assumption. lia.
Qed.

Lemma uvarint_putUvarint (fuel extra : nat) (v shift acc : N) (rest : list byte) :
  (v < 2 ^ (7 * N.of_nat (S fuel)))%N ->
  Reference.uvarint (S fuel + extra) (Reference.putUvarint fuel v ++ rest) shift acc
  = Some (((acc + v * 2 ^ shift) mod 2 ^ 64)%N, rest).
Proof.
  revert v shift acc. induction fuel as [|f IH]; intros v shift acc Hv.
  - cbn [Reference.putUvarint Reference.uvarint app Nat.add].
    rewrite to_N_byte_of_N, N.mod_small by (cbn in Hv; lia).
    destruct (N.ltb_spec v 128); [reflexivity|cbn in Hv; lia].
  - cbn [Reference.putUvarint].
    destruct (N.ltb_spec v 128) as [Hsmall|Hbig].
    + cbn [Reference.uvarint app Nat.add].
      rewrite to_N_byte_of_N, N.mod_small by lia.
      destruct (N.ltb_spec v 128); [reflexivity|lia].
    + change (S (S f) + extra) with (S (S f + extra)).
      cbn [Reference.uvarint app].
      assert (Hm : (v mod 128 < 128)%N) by (apply N.mod_lt; discriminate).
      pose proof (N.le_0_l (v mod 128)) as Hm0.
      rewrite to_N_byte_of_N, (N.mod_small (v mod 128 + 128)) by lia.
      destruct (N.ltb_spec (v mod 128 + 128) 128); [lia|].
      rewrite IH.
      * f_equal. f_equal. f_equal.
        rewrite N.pow_add_r.
        replace (v mod 128 + 128 - 128)%N with (v mod 128)%N by lia.
        rewrite (N.div_mod v 128) at 3 by discriminate.
        change (2 ^ 7)%N with 128%N. ring.
      * apply N.Div0.div_lt_upper_bound.
        replace (7 * N.of_nat (S (S f)))%N with (7 + 7 * N.of_nat (S f))%N in Hv by lia.
        rewrite N.pow_add_r in Hv. exact Hv.
Qed.

Lemma unmarshalVarUint64s_marshal (ids : list N) (rest : list byte) :
  Forall (fun v => (v < 2 ^ 64)%N) ids ->
  Reference.unmarshalVarUint64s (length ids) (Reference.marshalVarUint64s ids ++ rest)
  = (ids, rest, None).
Proof.
  induction 1 as [|v ids Hv _ IH]; [reflexivity|].
  unfold Reference.marshalVarUint64s in *.
  cbn [flat_map length Reference.unmarshalVarUint64s].
  rewrite <- app_assoc.
  change 10 with (S 9 + 0).
  rewrite uvarint_putUvarint
    by (eapply N.lt_le_trans; [exact Hv|apply N.pow_le_mono_r; lia]).
  rewrite IH. cbn. rewrite N.mul_1_r, N.mod_small by assumption. reflexivity.
Qed.

Lemma reference_laws : EncodingLaws Demo.env Reference.marshal.
Proof.
  constructor.
  - intros v. exact (length_bigEndian 4 v).
  - intros v. exact (length_bigEndian 8 v).
  - intros v rest H. exact (@ofBigEndian_bigEndian 4 v rest H).
  - intros v rest H. exact (@ofBigEndian_bigEndian 8 v rest H).
  - exact unmarshalVarUint64s_marshal.
Qed.

(** * The theorems at concrete requests *)

Lemma decodePoints_wrong_tag_witness :
  x02 <> x01
  /\ decodePoints (env := Demo.env) (Demo.world (Demo.request [x02; x05] [] [] None))
     = (Done (mkDecoded "" "" 0 0 [] []
                (Some (errors_New "not a fast marshal points package"))),
        mkWorld (Demo.request [x02; x05] [] [] None)
                [LogErrorOf (errors_New "not a fast marshal points package")]).
Proof.
  split; [discriminate|].
  apply (decodePoints_wrong_tag (env := Demo.env) (Demo.request [x02; x05] [] [] None) []
           (b := x02) (rest := [x05]) (sp := [])).
  - discriminate.
  - reflexivity.
Defined.

Lemma decodePoints_roundtrip_witness :
  (exists r w', decodePoints (env := Demo.env) Demo.paired = (Done r, w'))
  /\ forall r w',
       decodePoints (env := Demo.env) Demo.paired = (Done r, w') ->
       (encodeHeader (m := Reference.marshal) x01 (db r) (rp r) (ptId r) (shard r)
                     (streamShardIdList r) ++ binaryRows r)%list
       = elems (reqBuf (work Demo.paired)).
Proof.
  destruct (decodePoints_roundtrip (env := Demo.env) (laws := reference_laws) Demo.paired
              (db' := "db") (rp' := "rp") (ptId' := 7%N) (shard' := 42%N) (ids := [5; 9]%N)
              (payload := Demo.batch [x61]) (sp := []))
    as (Hfields & Hreturns & _).
  - unfold validHeader. cbn. repeat split; try lia.
    repeat constructor.
  - reflexivity.
  - split.
    + apply (Hreturns _ eq_refl). repeat constructor; discriminate.
    + intros r w' Hdec. apply (Hfields r w' Hdec).
Defined.

(** C5 as stated fails on a frame that the layout accepts but no encoder
    writes: a stream-shard id of zero written as the varint 80 00 is read
    as zero, and written back as the one byte 00, so the header that the
    returned fields re-encode to is one byte shorter than the header that
    was sent. The payload does come back as it was. *)
Lemma padded_varint_is_not_reencoded :
  parseFrame (env := Demo.env) Demo.paddedFrame
  = Some (mkDecoded "db" "rp" 7 42 [0%N] (Demo.batch [x61]) None)
  /\ fst (decodePoints (env := Demo.env) Demo.padded)
     = Done (mkDecoded "db" "rp" 7 42 [0%N] (Demo.batch [x61]) None)
  /\ (encodeHeader (m := Reference.marshal) x01 "db" "rp" 7 42 [0%N] ++ Demo.batch [x61])%list
     <> Demo.paddedFrame
  /\ length (encodeHeader (m := Reference.marshal) x01 "db" "rp" 7 42 [0%N]) = 24
  /\ length Demo.paddedFrame - length (Demo.batch [x61]) = 25.
Proof. repeat split; vm_compute; try reflexivity; discriminate. Qed.

Lemma decodePoints_truncated_name_panics_witness :
  fst (decodePoints (env := Demo.env) (Demo.world (Demo.request [x01; x00] [] [] None)))
  = Panic index_out_of_range
  /\ fst (decodePoints (env := Demo.env) (Demo.world (Demo.request [x01; x01] [x07] [] None)))
     = Panic slice_bounds_out_of_range.
Proof.
  split.
  - apply (decodePoints_truncated_name_panics (env := Demo.env)
             (Demo.request [x01; x00] [] [] None) []
             (l1 := x00) (name := []) (sp := []) eq_refl).
    reflexivity.
  - apply (decodePoints_truncated_name_panics (env := Demo.env)
             (Demo.request [x01; x01] [x07] [] None) []
             (l1 := x01) (name := []) (sp := [x07]) eq_refl).
    reflexivity.
Defined.

Lemma WritePoints_replica_witness :
  fst (WritePoints (env := Demo.env) Demo.plain)
  = Done (Some (errors_New "replica unavailable"))
  /\ calls isStorageWriteRowsToSlave (trace (snd (WritePoints (env := Demo.env) Demo.plain)))
     = 1.
Proof.
  destruct (WritePoints_replica (env := Demo.env) Demo.plain) as [_ H].
  destruct (H _ _ eq_refl eq_refl) as [_ Hreplica].
  exact (Hreplica eq_refl eq_refl).
Defined.

Lemma WriteStreamPoints_dispatch_witness :
  fst (WriteStreamPoints (env := Demo.env) Demo.paired) = Done (None, true)
  /\ forall e, fst (WriteStreamPoints (env := Demo.env) Demo.oddStream) <> Done (e, true).
Proof.
  split.
  - destruct (WriteStreamPoints_dispatch (env := Demo.env) Demo.paired) as (_ & H & _).
    exact (H eq_refl).
  - destruct (WriteStreamPoints_dispatch (env := Demo.env) Demo.oddStream) as (_ & _ & H).
    exact (H eq_refl).
Defined.

Lemma WriteStreamPoints_odd_witness :
  (calls isStreamWriteRows (trace (snd (WriteStreamPoints (env := Demo.env) Demo.oddStream)))
   = 0
   /\ fst (WriteStreamPoints (env := Demo.env) Demo.oddStream)
      = Done (Some (errno_NewError ErrUnmarshalPoints None), false))
  /\ fst (WriteStreamPoints (env := Demo.env) Demo.oddNilVar) = Panic nil_pointer_dereference.
Proof.
  split.
  - destruct (WriteStreamPoints_odd (env := Demo.env) Demo.oddStream) as [_ Hodd].
    destruct (Hodd _ _ eq_refl eq_refl) as (Hcalls & _ & _ & Hok).
    split; [exact Hcalls|exact (Hok eq_refl)].
  - destruct (WriteStreamPoints_odd (env := Demo.env) Demo.oddNilVar) as [Hpanics _].
    destruct (Hpanics _ _ eq_refl) as [Hresult _].
    rewrite Hresult. reflexivity.
Defined.

(** C4 as stated fails: one stream shard (an odd list), a matching stream
    variable, no stream engine attached and a good primary write, and
    [WriteStreamPoints] returns no error at all. *)
Lemma WriteStreamPoints_odd_without_engine_succeeds :
  option_map (fun r => length (streamShardIdList r))
             (returned (fst (decodePoints (env := Demo.env) Demo.oddNoStream)))
  = Some 1
  /\ notnil (stream (work Demo.oddNoStream)) = false
  /\ fst (WriteStreamPoints (env := Demo.env) Demo.oddNoStream) = Done (None, false).
Proof. repeat split; vm_compute; reflexivity. Qed.

Lemma stream_vars_mismatch_witness :
  let e := errno_NewError ErrUnmarshalPoints (Some (errors_New mismatch_msg)) in
  fst (WritePoints (env := Demo.env) Demo.missingVars) = Done (Some e)
  /\ calls isDownstream (trace (snd (WritePoints (env := Demo.env) Demo.missingVars))) = 0
  /\ fst (WriteStreamPoints (env := Demo.env) Demo.missingVars) = Done (Some e, false)
  /\ calls isDownstream (trace (snd (WriteStreamPoints (env := Demo.env) Demo.missingVars)))
     = 0.
Proof.
  apply (stream_vars_mismatch (env := Demo.env) Demo.missingVars
           (h := mkDecoded "db" "rp" 7 42 [5; 9]%N (Demo.batch [x61]) None)
           (rows' := Slice (Demo.rowsOf [x61]) [])
           (tags' := Nil) (fields' := Nil) (opts' := Nil) (keys' := Nil)).
  - reflexivity.
  - discriminate.
  - reflexivity.
  - cbn. lia.
Defined.

(** C2 as stated fails: with no stream shards in the frame, two stream
    variables for one decoded row go unnoticed; both entry points succeed
    and the storage engine is written to. *)
Lemma surplus_stream_vars_are_written :
  len (streamVars (work Demo.surplusVars)) = 2
  /\ len (rows (work (snd (WritePoints (env := Demo.envNoReplication) Demo.surplusVars)))) = 1
  /\ fst (WritePoints (env := Demo.envNoReplication) Demo.surplusVars) = Done None
  /\ calls isStorageWriteRows
       (trace (snd (WritePoints (env := Demo.envNoReplication) Demo.surplusVars))) = 1
  /\ fst (WriteStreamPoints (env := Demo.envNoReplication) Demo.surplusVars)
     = Done (None, false)
  /\ calls isStorageWriteRows
       (trace (snd (WriteStreamPoints (env := Demo.envNoReplication) Demo.surplusVars))) = 1.
Proof. repeat split; vm_compute; reflexivity. Qed.

Lemma reset_shrink_witness :
  reqBuf (reset 11 11 (Demo.sized 2 2 1 8 0)) = Nil
  /\ rows (reset 11 11 (Demo.sized 2 2 1 8 0)) = Nil
  /\ lastResetTime (reset 11 11 (Demo.sized 2 2 1 8 0)) = 11%N
  /\ cap (reqBuf (reset 10 10 (Demo.sized 2 2 1 8 0))) = 2.
Proof.
  destruct (reset_shrink 11 11 (Demo.sized 2 2 1 8 0)) as [Hdue _].
  destruct (reset_shrink 10 10 (Demo.sized 2 2 1 8 0)) as [_ Hkeep].
  destruct Hdue as (H1 & H2 & H3).
  { split; [left; cbn; lia|]. vm_compute. reflexivity. }
  destruct Hkeep as (_ & H4 & _).
  { intros [_ Hlate]. vm_compute in Hlate. discriminate. }
  repeat split; assumption.
Defined.

(** C6 as stated fails. A request buffer that has grown to eight times its
    last-used length is kept after eleven seconds when the rows have grown
    as much; rows that have not grown at all are dropped; and at exactly
    ten seconds nothing is dropped. *)
Lemma reset_is_not_the_worded_policy :
  (wordedDrop (reqBuf (Demo.sized 1 8 1 8 0)) 11 = true
   /\ is_nil (reqBuf (reset 11 11 (Demo.sized 1 8 1 8 0))) = false)
  /\ (wordedDrop (rows (Demo.sized 1 8 2 2 0)) 11 = false
      /\ is_nil (rows (reset 11 11 (Demo.sized 1 8 2 2 0))) = true)
  /\ (wordedDrop (reqBuf (Demo.sized 1 8 2 2 0)) 10 = true
      /\ is_nil (reqBuf (reset 10 10 (Demo.sized 1 8 2 2 0))) = false).
Proof. repeat split; vm_compute; reflexivity. Qed.

Lemma checkout_after_release_witness :
  clean (fst (GetWritePointsWork (Some 0)
                (PutWritePointsWork 11 11 (work Demo.paired) Demo.noPools)))
  /\ fst (GetWritePointsWork (Some 0)
            (PutWritePointsWork 11 11 (work Demo.paired) Demo.noPools))
     = reset 11 11 (work Demo.paired).
Proof.
  destruct (checkout_after_release 11 11 (work Demo.paired) Demo.noPools (Some 0))
    as (Hclean & _ & Hsame).
  - constructor.
  - split; assumption.
Defined.

(** C7 as stated fails on "non-nil": a work object released before it ever
    decoded a request comes back with nil pools, and so do the rows of one
    whose buffers were dropped by [reset]. *)
Lemma checkout_pools_can_be_nil :
  (let ww := fst (GetWritePointsWork (Some 0)
                    (PutWritePointsWork 0 0 Demo.fresh Demo.noPools)) in
   is_nil (rows ww) = true /\ is_nil (tagpools ww) = true
   /\ is_nil (fieldpools ww) = true /\ is_nil (indexKeypools ww) = true
   /\ is_nil (indexOptionpools ww) = true /\ is_nil (streamVars ww) = true)
  /\ (let used := Demo.sized 2 2 1 1 0 in
      let ww := fst (GetWritePointsWork (Some 0)
                       (PutWritePointsWork 11 11 used Demo.noPools)) in
      is_nil (rows used) = false /\ is_nil (rows ww) = true).
Proof. repeat split; vm_compute; reflexivity. Qed.

(** * Scenarios *)

(** One row, no stream shards: the decode yields one row, the storage
    engine is written to once for ("db", "rp", 7, 42), and nothing is
    handed to the stream engine. *)
Example scenario_one_row :
  WriteStreamPoints (env := Demo.envNoReplication) Demo.plain
  = (Done (None, false),
     mkWorld
       (mkWork (Some tt) None (Slice (Demo.frame [] (Demo.batch [x61])) []) (Slice [] [])
               (Slice (Demo.rowsOf [x61]) []) Nil Nil Nil Nil 0%N)
       [AddWriteUnmarshalNs 1500;
        StorageWriteRows (Some tt) "db" "rp" 7 42 (Slice (Demo.rowsOf [x61]) [])
                         (Demo.batch [x61])]).
Proof. vm_compute. reflexivity. Qed.

(** A count of one stream shard followed by an unfinished varint: the
    decode fails and the storage engine is never written to. *)
Example scenario_unfinished_varint :
  let frame := (firstn 22 (Demo.frame [] []) ++ [x01; x80])%list in
  let result := WritePoints (env := Demo.env) (Demo.world (Demo.request frame [] [] None)) in
  fst result
  = Done (Some (errno_NewError ErrUnmarshalPoints
                  (Some (errors_New "cannot unmarshal varuint"))))
  /\ calls isDownstream (trace (snd result)) = 0.
Proof. split; vm_compute; reflexivity. Qed.

(** Two stream-shard pairs (5 to 1, 6 to 2) with a stream engine attached:
    the stream engine receives the mapping and the dispatch is reported. *)
Example scenario_two_pairs :
  let w := Demo.world (Demo.request (Demo.frame [5; 1; 6; 2]%N (Demo.batch [x61])) []
                                     [Some Demo.var] (Some tt)) in
  fst (WriteStreamPoints (env := Demo.env) w) = Done (None, true)
  /\ last (trace (snd (WriteStreamPoints (env := Demo.env) w))) (LogError "")
     = StreamWriteRows tt "db" "rp" 7 42 (<[6%N := 2%N]> (<[5%N := 1%N]> ∅)).
Proof. split; vm_compute; reflexivity. Qed.

(** A well-formed header followed by a payload too short for the row
    decoder: the decoder's panic goes through [decodePoints] and both entry
    points, with the scratch pools already truncated and nothing logged,
    counted or written. *)
Example scenario_short_payload :
  fst (decodePoints (env := Demo.env) Demo.shortPayload) = Panic slice_bounds_out_of_range
  /\ fst (WritePoints (env := Demo.env) Demo.shortPayload) = Panic slice_bounds_out_of_range
  /\ WriteStreamPoints (env := Demo.env) Demo.shortPayload
     = (Panic slice_bounds_out_of_range, Demo.shortPayload).
Proof. repeat split; vm_compute; reflexivity. Qed.

(** One stream shard, a stream engine attached and a nil pointer for the
    stream variable of the row: the loop over the rows panics, and so does
    [WriteStreamPoints], before anything is written. With a second row and
    its stream variable in place behind a good first pair, the first row
    has been bound by the time the loop panics. *)
Example scenario_nil_stream_variable :
  WriteStreamPoints (env := Demo.env) Demo.oddNilVar
  = (Panic nil_pointer_dereference,
     mkWorld (mkWork (Some tt) (Some tt) (reqBuf (work Demo.oddNilVar)) (Slice [None] [])
                     (Slice (Demo.rowsOf [x61]) []) Nil Nil Nil Nil 0%N) [])
  /\ (let w := Demo.world (Demo.request (Demo.frame [5; 9]%N (Demo.batch [x61; x62])) []
                                        [Some Demo.var; None] (Some tt)) in
      fst (decodePoints (env := Demo.env) w) = Panic nil_pointer_dereference
      /\ elems (rows (work (snd (decodePoints (env := Demo.env) w))))
         = [mkRow x61 true 5%N; mkRow x62 false 0%N]).
Proof. repeat split; vm_compute; reflexivity. Qed.

(** A storage engine that panics on the write: the panic is the end of
    both entry points, after the one storage call and before any replica
    or stream call. *)
Example scenario_storage_panics :
  let buf := (encodeHeader (m := Reference.marshal) x01 "db" "rp" 7 500 [5; 9]%N
              ++ Demo.batch [x61])%list in
  let w := Demo.world (Demo.request buf [] [Some Demo.var] (Some tt)) in
  fst (WritePoints (env := Demo.env) w) = Panic nil_pointer_dereference
  /\ fst (WriteStreamPoints (env := Demo.env) w) = Panic nil_pointer_dereference
  /\ calls isStorageWriteRows (trace (snd (WriteStreamPoints (env := Demo.env) w))) = 1
  /\ calls isStreamWriteRows (trace (snd (WriteStreamPoints (env := Demo.env) w))) = 0
  /\ calls isStorageWriteRowsToSlave (trace (snd (WritePoints (env := Demo.env) w))) = 0.
Proof. repeat split; vm_compute; reflexivity. Qed.

(** * The further properties at concrete inputs *)

Lemma decodePoints_invalid_points_buffer_witness :
  fst (decodePoints (env := Demo.env) (Demo.world (Demo.request [x01] [x02; x03] [] None)))
  = Done (mkDecoded "" "" 0 0 [] [] (Some (errors_New "invalid points buffer")))
  /\ fst (decodePoints (env := Demo.env) (Demo.world Demo.fresh))
     = Done (mkDecoded "" "" 0 0 [] [] (Some (errors_New "invalid points buffer"))).
Proof.
  split.
  - rewrite (decodePoints_invalid_points_buffer (env := Demo.env)
               (Demo.world (Demo.request [x01] [x02; x03] [] None)));
      [reflexivity|cbn; lia].
  - rewrite (decodePoints_invalid_points_buffer (env := Demo.env) (Demo.world Demo.fresh));
      [reflexivity|cbn; lia].
Defined.

Lemma decodePoints_no_data_for_db_name_witness :
  fst (decodePoints (env := Demo.env) (Demo.world (Demo.request [x01; x05; x61] [] [] None)))
  = Done (mkDecoded "" "" 0 0 [] [] (Some (errors_New "no data for db name"))).
Proof.
  rewrite decodePoints_no_data_for_db_name with (l1 := x05) (rest := [x61]) (sp := []);
    [reflexivity|reflexivity|cbn; lia].
Defined.

Lemma decodePoints_no_data_for_rp_name_witness :
  fst (decodePoints (env := Demo.env)
         (Demo.world (Demo.request [x01; x02; x64; x62; x05; x72] [] [] None)))
  = Done (mkDecoded "db" "" 0 0 [] [] (Some (errors_New "no data for rp name"))).
Proof.
  rewrite decodePoints_no_data_for_rp_name
    with (l1 := x02) (l2 := x05) (name := [x64; x62]) (rest := [x72]) (sp := []);
    [reflexivity|reflexivity|reflexivity|cbn; lia].
Defined.

Lemma decodePoints_no_data_for_points_data_witness :
  fst (decodePoints (env := Demo.env)
         (Demo.world (Demo.request [x01; x02; x64; x62; x02; x72; x70; x00; x00; x00]
                                   [] [] None)))
  = Done (mkDecoded "db" "rp" 0 0 [] [] (Some (errors_New "no data for points data"))).
Proof.
  rewrite decodePoints_no_data_for_points_data
    with (l1 := x02) (l2 := x02) (name1 := [x64; x62]) (name2 := [x72; x70])
         (rest := [x00; x00; x00]) (sp := []);
    [reflexivity|reflexivity|reflexivity|reflexivity|cbn; lia].
Defined.

Lemma decodePoints_varint_error_witness :
  fst (decodePoints (env := Demo.env)
         (Demo.world (Demo.request (firstn 22 (Demo.frame [] []) ++ [x01; x80]) [] [] None)))
  = Done (mkDecoded "db" "rp" 7 42 [0%N] [] (Some (errors_New "cannot unmarshal varuint"))).
Proof.
  rewrite decodePoints_varint_error
    with (l1 := x02) (l2 := x02) (name1 := [x64; x62]) (name2 := [x72; x70])
         (fixed := [x00; x00; x00; x07; x00; x00; x00; x00; x00; x00; x00; x2a;
                    x00; x00; x00; x01; x80])
         (sp := []) (ids := [0%N]) (tail := [])
         (e := errors_New "cannot unmarshal varuint");
    [reflexivity|reflexivity|reflexivity|reflexivity|cbn; lia|reflexivity].
Defined.

Lemma decodePoints_sound_witness :
  parseFrame (env := Demo.env) (elems (reqBuf (work Demo.paired)))
  = Some (mkDecoded "db" "rp" 7 42 [5; 9]%N (Demo.batch [x61]) None).
Proof.
  exact (decodePoints_sound (env := Demo.env) Demo.paired eq_refl eq_refl).
Defined.

Lemma decodePoints_accepts_witness :
  (exists e w',
      decodePoints (env := Demo.env) Demo.padded
      = (Done (mkDecoded "db" "rp" 7 42 [0%N] (Demo.batch [x61]) e), w'))
  /\ fst (decodePoints (env := Demo.env) Demo.shortPayload) = Panic slice_bounds_out_of_range
  /\ trace (snd (decodePoints (env := Demo.env) Demo.shortPayload)) = [].
Proof.
  split.
  - destruct (decodePoints_accepts (env := Demo.env) Demo.padded
                (h := mkDecoded "db" "rp" 7 42 [0%N] (Demo.batch [x61]) None) eq_refl)
      as [Hreturns _].
    apply (Hreturns _ eq_refl). repeat constructor; discriminate.
  - destruct (decodePoints_accepts (env := Demo.env) Demo.shortPayload
                (h := mkDecoded "db" "rp" 7 42 [] [x61] None) eq_refl)
      as [_ Hpanics].
    exact (Hpanics _ eq_refl).
Defined.

Lemma decodePoints_binds_stream_vars_witness :
  index (rows (work (snd (decodePoints (env := Demo.env) Demo.paired)))) 0
  = Some (mkRow x61 true 5%N).
Proof.
  destruct (decodePoints_binds_stream_vars (env := Demo.env) Demo.paired
              (h := mkDecoded "db" "rp" 7 42 [5; 9]%N (Demo.batch [x61]) None)
              (rows' := Slice (Demo.rowsOf [x61]) [])
              (tags' := Nil) (fields' := Nil) (opts' := Nil) (keys' := Nil)
              eq_refl ltac:(discriminate) eq_refl eq_refl eq_refl)
    as (_ & _ & Hrow).
  destruct (Hrow 0 (mkRow x61 false 0%N) eq_refl) as (v & Hv & Hbound).
  injection Hv as <-. exact Hbound.
Defined.

Lemma row_decoder_error_witness :
  let wrapped := errno_NewError ErrUnmarshalPoints (Some (errors_New "malformed row")) in
  fst (WritePoints (env := Demo.env) Demo.badRow) = Done (Some wrapped)
  /\ calls isDownstream (trace (snd (WritePoints (env := Demo.env) Demo.badRow))) = 0
  /\ fst (WriteStreamPoints (env := Demo.env) Demo.badRow) = Done (Some wrapped, false)
  /\ calls isDownstream (trace (snd (WriteStreamPoints (env := Demo.env) Demo.badRow))) = 0.
Proof.
  apply (row_decoder_error (env := Demo.env) Demo.badRow
           (h := mkDecoded "db" "rp" 7 42 [] (Demo.batch [xff]) None)
           (rows' := Nil) (tags' := Nil) (fields' := Nil) (opts' := Nil) (keys' := Nil)
           (e := errors_New "malformed row")).
  - reflexivity.
  - reflexivity.
Defined.

Lemma WriteStreamPoints_as_WritePoints_witness :
  WriteStreamPoints (env := Demo.envNoReplication) Demo.plain
  = (Done (None, false), snd (WritePoints (env := Demo.envNoReplication) Demo.plain)).
Proof.
  exact (WriteStreamPoints_as_WritePoints (env := Demo.envNoReplication) Demo.plain
           eq_refl eq_refl).
Defined.

Lemma fillStreamIdDstShardIdMap_last_pair_witness :
  fillStreamIdDstShardIdMap [5; 1; 6; 2; 5; 3]%N ∅ !! 5%N = Some 3%N
  /\ fillStreamIdDstShardIdMap [5; 1; 6; 2; 5; 3]%N ∅ !! 7%N = None.
Proof.
  destruct (fillStreamIdDstShardIdMap_last_pair [(5, 1); (6, 2); (5, 3)]%N) as [Hlast Hnone].
  split.
  - apply (Hlast [(5, 1); (6, 2)]%N 5%N 3%N [] eq_refl). intros [].
  - apply Hnone. cbn. intros [H|[H|[H|[]]]]; discriminate.
Defined.

Lemma Open_listeners_witness :
  fst (fst (Server.Open (env := ShellDemo.env)
              (Server.NewServer (env := ShellDemo.env) ":8400" ":80")))
  = Some (errors_New "cannot create a server with addr=:80: bind: address already in use")
  /\ fst (fst (Server.Open (env := ShellDemo.env) ShellDemo.created)) = None
  /\ ShellDemo.opened = Server.mkServer false (":8401", true) (":8400", true).
Proof.
  split; [|split].
  - destruct (Open_listeners (env := ShellDemo.env)
                (Server.NewServer (env := ShellDemo.env) ":8400" ":80"))
      as (_ & _ & _ & Hselect & _).
    exact (proj1 (Hselect "bind: address already in use" eq_refl eq_refl)).
  - destruct (Open_listeners (env := ShellDemo.env) ShellDemo.created) as (Hnil & _).
    apply Hnil. split; reflexivity.
  - destruct (Open_listeners (env := ShellDemo.env) ShellDemo.created)
      as (_ & _ & _ & _ & Hafter).
    exact (Hafter eq_refl).
Defined.

Lemma MustCloseTimes_closes_once_witness :
  (exists s',
      fst (Server.MustCloseTimes (env := ShellDemo.env) 3 ShellDemo.opened) = Done s'
      /\ Server.closed s' = true)
  /\ length (filter Server.isCloseChan
               (snd (Server.MustCloseTimes (env := ShellDemo.env) 3 ShellDemo.opened))) = 1
  /\ Server.MustClose (env := ShellDemo.env) ShellDemo.created
     = (Panic "invalid memory address or nil pointer dereference",
        [Server.CloseChan; Server.SelectClose (":8401", false)]).
Proof.
  destruct (MustCloseTimes_closes_once (env := ShellDemo.env) ShellDemo.opened)
    as (Hreturns & _ & _).
  destruct (Hreturns (fun l => snd l = true) (fun l => snd l = true) 2)
    as ((s' & Hs' & Hclosed & _) & Hchan & _).
  - intros [addr [|]] H; [|discriminate]. exists (addr, true). split; reflexivity.
  - intros [addr [|]] H; [|discriminate]. exists (addr, true). split; reflexivity.
  - reflexivity.
  - reflexivity.
  - split; [exists s'; split; assumption|].
    split; [exact Hchan|].
    destruct (MustCloseTimes_closes_once (env := ShellDemo.env) ShellDemo.created)
      as (_ & Hpanics & _).
    exact (Hpanics _ eq_refl).
Defined.

Lemma rewriteLevel_valid_witness :
  Logger.rewriteLevel (env := LogDemo.env) 9 = 0%Z
  /\ Logger.rewriteLevel (env := LogDemo.env) 2 = 2%Z.
Proof.
  assert (Horder : (Logger.DebugLevel (Env := LogDemo.env)
                    <= Logger.InfoLevel (Env := LogDemo.env)
                    <= Logger.FatalLevel (Env := LogDemo.env))%Z) by (cbn; lia).
  split.
  - destruct (rewriteLevel_valid (env := LogDemo.env) 9 Horder) as (_ & _ & Hout & _).
    apply Hout. cbn. lia.
  - destruct (rewriteLevel_valid (env := LogDemo.env) 2 Horder) as (_ & Hin & _).
    apply Hin. cbn. lia.
Defined.

Lemma level_enablers_witness :
  Logger.levelNormal (env := LogDemo.env) 5 5 = true
  /\ Logger.levelNormal (env := LogDemo.env) 1 3 = true.
Proof.
  split.
  - destruct (level_enablers (env := LogDemo.env) 5 5) as (Hfatal & _);
      [cbn; lia|cbn; lia|exact Hfatal].
  - destruct (level_enablers (env := LogDemo.env) 1 3) as (_ & _ & Hboth);
      [cbn; lia|cbn; lia|].
    apply Hboth; [cbn; lia|reflexivity].
Defined.

Lemma makeErrFileName_distinct_witness :
  Logger.makeErrFileName "ts-store" <> "ts-store"
  /\ Logger.makeErrFileName "ts-store" <> Logger.makeErrFileName "ts-sql".
Proof.
  destruct (makeErrFileName_distinct "ts-store" "ts-sql") as [Hself Hinj].
  split; [exact Hself|].
  intros H. apply Hinj in H. discriminate.
Defined.

Lemma dispatch_order_witness :
  trace (snd (WriteStreamPoints (env := Demo.env) Demo.paired))
  = [AddWriteUnmarshalNs 1500;
     StorageWriteRows (Some tt) "db" "rp" 7 42 (Slice [mkRow x61 true 5%N] [])
                      (Demo.batch [x61]);
     StreamWriteRows tt "db" "rp" 7 42 (<[5%N := 9%N]> ∅)].
Proof.
  destruct (dispatch_order (env := Demo.env) Demo.paired eq_refl eq_refl eq_refl)
    as [_ Hstream].
  exact (Hstream tt eq_refl ltac:(discriminate) eq_refl).
Defined.
